(** * AIOps latency monitor: sliding window and anomaly verdicts

    A shallow embedding of [aiops/monitor.py].  The script polls an endpoint,
    keeps the last [HISTORY_SIZE] latencies in the list [latency_history],
    and, once 20 of them are there, fits a fresh isolation forest on the list
    and asks it whether the latest latency is an anomaly.

    Latencies are Python floats; they are only stored, forwarded and printed
    by the script, so a sample is modelled by the rational it denotes.  The
    one arithmetic expression, [(time.time() - start) * 1000], is computed on
    rationals (binary64 rounding is not modelled; nothing below depends on
    the value of a measured latency).

    What the environment supplies in one iteration (the outcome of the HTTP
    request with the two clock readings around it, and the wall clock used
    for the printed time stamp) is an input of the loop body.  The list
    operations that raise in Python raise here. *)

From Stdlib Require Import String.
From Stdlib Require Import List ZArith QArith Qround Lia Bool Reals Lra.
From Stdlib Require Lqa.
Import ListNotations.

(** ** Python values: exceptions and list operations *)

Module Py.

Inductive exn : Type :=
| IndexError.

Definition result (A : Type) : Type := (exn + A)%type.

Definition ret {A : Type} (a : A) : result A := inr a.

Definition raise {A : Type} (e : exn) : result A := inl e.

Definition bind {A B : Type} (m : result A) (k : A -> result B) : result B :=
  match m with
  | inl e => inl e
  | inr a => k a
  end.

(** [l.append(x)] *)
Definition append {A : Type} (l : list A) (x : A) : list A := l ++ [x].

(** [l.pop(0)]: the removed element and the remaining list; raises on []. *)
Definition pop0 {A : Type} (l : list A) : result (A * list A) :=
  match l with
  | [] => raise IndexError
  | x :: rest => ret (x, rest)
  end.

(** [l[0]] *)
Definition index0 {A : Type} (l : list A) : result A :=
  match l with
  | [] => raise IndexError
  | x :: _ => ret x
  end.

(** [len(l)] *)
Definition len {A : Type} (l : list A) : nat := List.length l.

End Py.

Declare Scope py_scope.
Delimit Scope py_scope with py.
Notation "x <- m ;; k" := (Py.bind m (fun x => k))
  (at level 61, m at next level, right associativity) : py_scope.

(** ** The estimator of the library

    [sklearn.ensemble.IsolationForest] is not part of the repository.  The
    script uses three things of it: the constructor with [contamination] and
    [random_state], [fit] on a list of one-feature rows, and [predict] on a
    list of rows, which answers one label per row ([-1] anomaly, [1]
    normal).  With an integer [random_state] a fit is reproducible, so the
    fitted estimator is a function of the two constructor arguments and of
    the training rows. *)

Class IsolationForestAPI : Type := {
  fitted : Type;
  fit : Q -> Z -> list (list Q) -> fitted;
  label : fitted -> list Q -> Z
}.

Definition predict `{IsolationForestAPI} (clf : fitted) (X : list (list Q)) : list Z :=
  map (label clf) X.

(** ** The script *)

Module Monitor.

Import Py.
Local Open Scope py_scope.

Definition POLL_INTERVAL : nat := 5.

Definition HISTORY_SIZE : nat := 50.

(** What [requests.get(TARGET_URL, timeout=2)] did, with the readings of
    [time.time()] before and after it; [Failed] is any exception raised
    inside the [try] block (time-out, refused connection, ...). *)
Inductive response : Type :=
| Responded (start finish : Q)
| Failed.

Definition get_latency (r : response) : Q :=
  match r with
  | Responded start finish => (finish - start) * 1000
  | Failed => 2000
  end.

(** The environment of one iteration. *)
Record tick : Type := {
  probe : response;
  now : string
}.

(** The two lines the loop prints. *)
Inductive line : Type :=
| AnomalyDetected (timestamp : string) (current_latency : Q)
| SystemStable (timestamp : string) (current_latency : Q).

Definition flagged (l : line) : bool :=
  match l with
  | AnomalyDetected _ _ => true
  | SystemStable _ _ => false
  end.

Definition latency_of (l : line) : Q :=
  match l with
  | AnomalyDetected _ x => x
  | SystemStable _ x => x
  end.

Definition stamp_of (l : line) : string :=
  match l with
  | AnomalyDetected stamp _ => stamp
  | SystemStable stamp _ => stamp
  end.

Section Script.

Context `{API : IsolationForestAPI}.

(** The module-level names that live across iterations.  All but
    [latency_history] are unbound until their first assignment. *)
Record globals : Type := {
  latency_history : list (list Q);
  current_latency : option Q;
  clf : option fitted;
  prediction : option (list Z);
  timestamp : option string
}.

Definition start : globals :=
  {| latency_history := [];
     current_latency := None;
     clf := None;
     prediction := None;
     timestamp := None |}.

(** Lines 27-31: append the new row, then drop the oldest row when the list
    got longer than [HISTORY_SIZE]. *)
Definition push (x : Q) (history : list (list Q)) : result (list (list Q)) :=
  let history := append history [x] in
  if (HISTORY_SIZE <? len history)%nat
  then popped <- pop0 history ;; ret (snd popped)
  else ret history.

(** Lines 36-40: a new estimator, fitted on the whole list, asked about the
    latest latency.  The result is the fitted estimator, the array of labels
    and its first entry. *)
Definition classify (history : list (list Q)) (x : Q) : result (fitted * list Z * Z) :=
  let clf := fit 0.1 42 history in
  let prediction := predict clf [[x]] in
  p <- index0 prediction ;;
  ret (clf, prediction, p).

(** Lines 43-46: the line printed for the first label. *)
Definition report (stamp : string) (x : Q) (p : Z) : line :=
  if (p =? -1)%Z then AnomalyDetected stamp x else SystemStable stamp x.

(** Lines 26-46: one iteration of [while True], before the sleep. *)
Definition loop_body (env : tick) (g : globals) : result (globals * option line) :=
  let x := get_latency (probe env) in
  history <- push x (latency_history g) ;;
  if (20 <=? len history)%nat then
    c <- classify history x ;;
    let '(model, labels, p) := c in
    let stamp := now env in
    ret ({| latency_history := history;
            current_latency := Some x;
            clf := Some model;
            prediction := Some labels;
            timestamp := Some stamp |},
         Some (report stamp x p))
  else
    ret ({| latency_history := history;
            current_latency := Some x;
            clf := clf g;
            prediction := prediction g;
            timestamp := timestamp g |},
         None).

(** The first [length envs] iterations: the globals they leave and the lines
    they print, oldest first.  [time.sleep(POLL_INTERVAL)] between two
    iterations changes nothing of the state; the start-up line is printed
    before the loop and is not part of its output. *)
Fixpoint iterate (envs : list tick) (g : globals) : result (globals * list line) :=
  match envs with
  | [] => ret (g, [])
  | env :: rest =>
      r <- loop_body env g ;;
      r' <- iterate rest (fst r) ;;
      ret (fst r', match snd r with
                   | Some l => l :: snd r'
                   | None => snd r'
                   end)
  end.

(** The latencies measured in a run, oldest first, and the row kept for one. *)
Definition samples (envs : list tick) : list Q :=
  map (fun env => get_latency (probe env)) envs.

Definition row (x : Q) : list Q := [x].

(** The rows of the last [HISTORY_SIZE] latencies of a run (of all of them
    when the run is shorter), oldest first. *)
Definition recent (envs : list tick) : list (list Q) :=
  map row (skipn (length envs - HISTORY_SIZE) (samples envs)).

(** *** The loop without the exceptions

    The same computations written as total functions; they are shown below
    to be what [push], [loop_body] and [iterate] return. *)

(** The window after one more latency. *)
Definition slide (x : Q) (history : list (list Q)) : list (list Q) :=
  if (HISTORY_SIZE <? length (history ++ [row x]))%nat
  then tl (history ++ [row x])
  else history ++ [row x].

(** The window after a sequence of latencies. *)
Definition window (history : list (list Q)) (xs : list Q) : list (list Q) :=
  fold_left (fun h x => slide x h) xs history.

(** The globals and the output of an iteration. *)
Definition next (env : tick) (g : globals) : globals :=
  let x := get_latency (probe env) in
  let h := slide x (latency_history g) in
  if (20 <=? length h)%nat
  then {| latency_history := h;
          current_latency := Some x;
          clf := Some (fit 0.1 42 h);
          prediction := Some [label (fit 0.1 42 h) [x]];
          timestamp := Some (now env) |}
  else {| latency_history := h;
          current_latency := Some x;
          clf := clf g;
          prediction := prediction g;
          timestamp := timestamp g |}.

Definition printed (env : tick) (g : globals) : option line :=
  let x := get_latency (probe env) in
  let h := slide x (latency_history g) in
  if (20 <=? length h)%nat
  then Some (report (now env) x (label (fit 0.1 42 h) [x]))
  else None.

Fixpoint final (envs : list tick) (g : globals) : globals :=
  match envs with
  | [] => g
  | env :: rest => final rest (next env g)
  end.

Fixpoint stdout (envs : list tick) (g : globals) : list line :=
  match envs with
  | [] => []
  | env :: rest =>
      match printed env g with
      | Some l => l :: stdout rest (next env g)
      | None => stdout rest (next env g)
      end
  end.

End Script.

End Monitor.

(** ** The detector of the specification

    The script delegates the forest to the library.  The specification
    describes the detector it expects in its section 4.2; that description
    is embedded here, over an arbitrary generator of random numbers.  Samples
    and split values are rationals; path lengths and scores are reals,
    because the size correction uses the natural logarithm. *)

Module Detector.

Local Open Scope R_scope.

(** Modelled from the spec: the configuration surface of section 6; the
    script passes [contamination] and [random_state] to the library and
    leaves the ensemble size to the library's default. *)
Record config : Type := {
  windowCapacity : nat;
  minPoints : nat;
  ensembleSize : nat;
  contamination : Q;
  randomSeed : Z
}.

Definition default_config : config :=
  {| windowCapacity := 50;
     minPoints := 20;
     ensembleSize := 100;
     contamination := 0.1%Q;
     randomSeed := 42%Z |}.

(** The same configuration with another contamination fraction. *)
Definition with_contamination (fraction : Q) (cfg : config) : config :=
  {| windowCapacity := windowCapacity cfg;
     minPoints := minPoints cfg;
     ensembleSize := ensembleSize cfg;
     contamination := fraction;
     randomSeed := randomSeed cfg |}.

(** Modelled from the spec: the output pair of section 3, which the library
    computes out of sight of the script. *)
Record Verdict : Type := {
  anomaly_score : R;
  is_anomaly : bool
}.

(** Modelled from the spec: the isolation tree of section 3.  A leaf records
    the depth at which partitioning stopped and how many points it holds; an
    internal node holds its split threshold. *)
Inductive IsolationTree : Type :=
| Leaf (depth : nat) (points : nat)
| Node (threshold : Q) (below above : IsolationTree).

(** Modelled from the spec: the in-process generator of section 5, which the
    specification leaves open.  [uniform g lo hi] is a split value meant to
    lie strictly between [lo] and [hi]; [subsample g k l] draws [k] of the
    points of [l]; both return the next state of the generator. *)
Class Generator : Type := {
  rng : Type;
  seeded : Z -> rng;
  uniform : rng -> Q -> Q -> Q * rng;
  subsample : rng -> nat -> list Q -> list Q * rng
}.

(** Modelled from the spec: step 1 of section 4.2 asks for a split value
    strictly between the minimum and the maximum of the node. *)
Definition admissible (G : Generator) : Prop :=
  forall (g : rng) (lo hi : Q),
    (lo < hi)%Q ->
    (lo < fst (uniform g lo hi))%Q /\ (fst (uniform g lo hi) < hi)%Q.

Definition Qltb (x y : Q) : bool := negb (Qle_bool y x).

Definition minimum (l : list Q) : Q :=
  fold_right (fun a m => if Qle_bool a m then a else m) (hd 0%Q l) l.

Definition maximum (l : list Q) : Q :=
  fold_right (fun a m => if Qle_bool m a then a else m) (hd 0%Q l) l.

Definition SUBSAMPLE_SIZE : nat := 256.

Section Forest.

Context `{G : Generator}.

(** Modelled from the spec: step 1 of section 4.2, the recursive partition.
    [room] is the distance from [depth] to the depth limit.  A node with at
    most one point, at the limit, or with all its values identical is a
    leaf; otherwise the points are scattered below and above a drawn
    threshold. *)
Fixpoint grow (room depth : nat) (g : rng) (points : list Q) : IsolationTree * rng :=
  match room with
  | O => (Leaf depth (length points), g)
  | S room' =>
      if (length points <=? 1)%nat then (Leaf depth (length points), g)
      else if Qle_bool (maximum points) (minimum points)
      then (Leaf depth (length points), g)
      else
        let (s, g1) := uniform g (minimum points) (maximum points) in
        let (l, g2) := grow room' (S depth) g1 (filter (fun p => Qltb p s) points) in
        let (r, g3) := grow room' (S depth) g2 (filter (fun p => negb (Qltb p s)) points) in
        (Node s l r, g3)
  end.

(** Modelled from the spec: the subsample of one tree, the full history
    when it is small. *)
Definition draw_points (g : rng) (history : list Q) : list Q * rng :=
  if (length history <=? SUBSAMPLE_SIZE)%nat then (history, g)
  else subsample g SUBSAMPLE_SIZE history.

(** Modelled from the spec: the subsample size psi of section 4.2. *)
Definition psi (history : list Q) : nat := Nat.min SUBSAMPLE_SIZE (length history).

(** Modelled from the spec: step 1 of section 4.2, an ensemble of [T]
    trees, each grown to depth [ceil (log2 psi)] at most. *)
Fixpoint plant (T : nat) (g : rng) (history : list Q) : list IsolationTree :=
  match T with
  | O => []
  | S T' =>
      let (points, g1) := draw_points g history in
      let (t, g2) := grow (Nat.log2_up (psi history)) 0 g1 points in
      t :: plant T' g2 history
  end.

Definition build (cfg : config) (history : list Q) : list IsolationTree :=
  plant (ensembleSize cfg) (seeded (randomSeed cfg)) history.

(** Modelled from the spec: the same ensemble together with the state the
    in-process generator of section 5 is left in once the trees are
    grown. *)
Fixpoint plant_from (T : nat) (g : rng) (history : list Q) : list IsolationTree * rng :=
  match T with
  | O => ([], g)
  | S T' =>
      let (points, g1) := draw_points g history in
      let (t, g2) := grow (Nat.log2_up (psi history)) 0 g1 points in
      let (rest, g3) := plant_from T' g2 history in
      (t :: rest, g3)
  end.

End Forest.

(** Modelled from the spec: step 2 of section 4.2, the harmonic number
    approximation and the expected path length [c]. *)
Definition H (i : nat) : R := ln (INR i) + 0.5772156649.

Definition c (n : nat) : R :=
  if (n <=? 1)%nat then 0 else 2 * H (n - 1) - 2 * INR (n - 1) / INR n.

(** Modelled from the spec: step 2 of section 4.2, the descent of a query
    to its leaf by the rule used at construction. *)
Fixpoint leaf_of (t : IsolationTree) (x : Q) : nat * nat :=
  match t with
  | Leaf depth points => (depth, points)
  | Node s l r => if Qltb x s then leaf_of l x else leaf_of r x
  end.

Definition path_length (t : IsolationTree) (x : Q) : R :=
  let (depth, points) := leaf_of t x in INR depth + c points.

Definition total (l : list R) : R := fold_right Rplus 0 l.

Definition mean_path_length (forest : list IsolationTree) (x : Q) : R :=
  total (map (fun t => path_length t x) forest) / INR (length forest).

(** Modelled from the spec: step 3 of section 4.2. *)
Definition score (forest : list IsolationTree) (n : nat) (x : Q) : R :=
  Rpower 2 (- mean_path_length forest x / c n).

(** Modelled from the spec: step 4 of section 4.2, the ranking.  Entries are
    numbered in arrival order; an entry is placed behind the entries with a
    strictly greater score, so equal scores keep their arrival order. *)
Fixpoint place (e : nat * R) (l : list (nat * R)) : list (nat * R) :=
  match l with
  | [] => [e]
  | e' :: l' => if Rlt_dec (snd e) (snd e') then e' :: place e l' else e :: l
  end.

Definition ranked (scores : list R) : list (nat * R) :=
  fold_right place [] (combine (seq 0 (length scores)) scores).

(** The ranking of entries numbered from [i] on, and how many scores of
    [l] are at least [s]: the two notions the ranking is reasoned with. *)
Definition ranked_from (i : nat) (scores : list R) : list (nat * R) :=
  fold_right place [] (combine (seq i (length scores)) scores).

Definition at_least (s : R) (l : list R) : nat :=
  length (filter (fun s' => if Rle_dec s s' then true else false) l).

(** Modelled from the spec: step 4 of section 4.2, how many entries the top
    [contamination] fraction of [N] entries holds. *)
Definition top_count (fraction : Q) (N : nat) : nat :=
  Z.to_nat (Qfloor (fraction * inject_Z (Z.of_nat N))).

Definition in_top_fraction (fraction : Q) (scores : list R) (entry : nat) : bool :=
  existsb (fun e => (fst e =? entry)%nat)
          (firstn (top_count fraction (length scores)) (ranked scores)).

(** Modelled from the spec: step 4 of section 4.2.  The history and then
    the query are scored against the same forest; the query is the last
    entry. *)
Definition decide (cfg : config) (forest : list IsolationTree)
    (history : list Q) (query : Q) : Verdict :=
  let n := psi history in
  let scores := map (score forest n) (history ++ [query]) in
  {| anomaly_score := score forest n query;
     is_anomaly := in_top_fraction (contamination cfg) scores (length history) |}.

(** Modelled from the spec: the operation [classify] of section 4.2, which
    in the script is the library's [fit] followed by [predict].  There is
    no verdict when a score has nothing to be normalised by: an empty
    ensemble, or at most one point per tree ([c] is zero there). *)
Definition classify `{G : Generator} (cfg : config) (history : list Q) (query : Q)
    : option Verdict :=
  if ((psi history <=? 1)%nat || (ensembleSize cfg =? 0)%nat)%bool then None
  else Some (decide cfg (build cfg history) history query).

(** Modelled from the spec: one call served by a running detector, whose
    generator is in the state [current] when the call arrives (sections 4.2
    and 5: the splits are random, "so exact scores vary run-to-run unless a
    fixed seed is used").  With a seed the call starts the generator anew
    from the seed; without one it goes on from the current state.  The
    result is the verdict and the state the generator is left in. *)
Definition classify_call `{G : Generator} (seed : option Z) (cfg : config)
    (history : list Q) (query : Q) (current : rng) : option Verdict * rng :=
  let g0 := match seed with
            | Some s => seeded s
            | None => current
            end in
  let (forest, left) := plant_from (ensembleSize cfg) g0 history in
  (if ((psi history <=? 1)%nat || (ensembleSize cfg =? 0)%nat)%bool then None
   else Some (decide cfg forest history query),
   left).

(** Modelled from the spec: the calls a detector serves one after the
    other, each a history and a query, and the verdicts it returns. *)
Fixpoint serve `{G : Generator} (seed : option Z) (cfg : config)
    (calls : list (list Q * Q)) (current : rng) : list (option Verdict) :=
  match calls with
  | [] => []
  | (history, query) :: rest =>
      let (v, left) := classify_call seed cfg history query current in
      v :: serve seed cfg rest left
  end.

(** A generator without randomness: the split is the middle of the range,
    the subsample is the oldest points. *)
Definition Midpoint : Generator :=
  {| rng := unit;
     seeded := fun _ => tt;
     uniform := fun g lo hi => (((lo + hi) / 2)%Q, g);
     subsample := fun g k l => (firstn k l, g) |}.

(** A generator with a state: a counter of the values drawn so far.  The
    first value drawn after seeding lies a third of the way up the range,
    every later one five sixths of the way up. *)
Definition Stepping : Generator :=
  {| rng := nat;
     seeded := fun _ => 0%nat;
     uniform := fun n lo hi =>
       ((if (n =? 0)%nat then lo + (hi - lo) / 3 else lo + (hi - lo) * (5 # 6))%Q,
        S n);
     subsample := fun n k l => (firstn k l, n) |}.

(** The detector behind the interface the script uses: [fit] keeps the
    configuration and the training column, [predict] labels a one-feature
    row by the verdict on its value, and labels a row normal when there is
    no verdict. *)
Record fitted_detector : Type := {
  fitted_config : config;
  training : list Q
}.

Definition as_library (G : Generator) : IsolationForestAPI :=
  {| fitted := fitted_detector;
     fit := fun fraction seed X =>
       {| fitted_config :=
            {| windowCapacity := windowCapacity default_config;
               minPoints := minPoints default_config;
               ensembleSize := ensembleSize default_config;
               contamination := fraction;
               randomSeed := seed |};
          training := concat X |};
     label := fun m r =>
       match classify (fitted_config m) (training m) (hd 0%Q r) with
       | Some v => if is_anomaly v then (-1)%Z else 1%Z
       | None => 1%Z
       end |}.

End Detector.

(** ** Concrete runs

    The library interface filled by the detector of the specification over
    the generator without randomness, and the inputs of the runs examined
    at the end. *)

Module Runs.

Import Py Monitor Detector.

Definition library : IsolationForestAPI := as_library Midpoint.

(** An answer after 12 ms, the same answer seen five seconds later, and a
    probe that timed out. *)
Definition quiet : tick :=
  {| probe := Responded 0 (12 # 1000); now := "12:00:00" |}.

Definition quiet_later : tick :=
  {| probe := Responded 0 (12 # 1000); now := "12:00:05" |}.

Definition timed_out : tick :=
  {| probe := Failed; now := "12:00:10" |}.

Definition quiet_rows (n : nat) : list (list Q) :=
  map row (repeat (get_latency (probe quiet)) n).

(** Globals with a full window, its oldest row a time-out, and no
    estimator yet. *)
Definition fresh_full : @globals library :=
  {| latency_history := [2000%Q] :: quiet_rows 49;
     current_latency := None;
     clf := None;
     prediction := None;
     timestamp := None |}.

(** The spike of the specification's end-to-end scenario: a steady history
    whose last entry is far out, and that entry as the query. *)
Definition spike_history : list Q := repeat 15%Q 19 ++ [5000%Q].

Definition spike_tree : IsolationTree :=
  Node ((15 + 5000) / 2)%Q (Leaf 1 19) (Leaf 1 1).

Definition spike_verdict : Verdict :=
  decide default_config (@build Midpoint default_config spike_history)
         spike_history 5000%Q.

(** Twenty samples spread evenly over the range from 10 to 20 ms: 10, 10.5,
    ..., 19.5. *)
Definition ramp : list Q := map (fun k => Z.of_nat k # 2) (seq 20 20).

(** A detector with a single tree, a short history, and a session of three
    calls of which the first and the last are the same. *)
Definition single_tree : config :=
  {| windowCapacity := 50;
     minPoints := 20;
     ensembleSize := 1;
     contamination := 0.1%Q;
     randomSeed := 42%Z |}.

Definition three_points : list Q := [0%Q; 2%Q; 3%Q].

Definition session : list (list Q * Q) :=
  [(three_points, 0%Q); (ramp, 15%Q); (three_points, 0%Q)].

(** The same call twice in a row, and the trees the generator with a state
    grows on the three points: from its first value, and from a later
    one. *)
Definition twice : list (list Q * Q) :=
  [(three_points, 0%Q); (three_points, 0%Q)].

Definition low_tree : IsolationTree :=
  Node (3 # 3) (Leaf 1 1) (Node (17 # 6) (Leaf 2 1) (Leaf 2 1)).

Definition high_tree : IsolationTree :=
  Node (15 # 6) (Node (10 # 6) (Leaf 2 1) (Leaf 2 1)) (Leaf 1 1).

End Runs.

(** ** The loop, as functions of the window

    Neither list operation of the loop body can raise where it is used, so
    an iteration is a function of the environment and the globals. *)

Module MonitorFacts.

Import Py Monitor.
Local Open Scope py_scope.

Section Facts.

Context `{API : IsolationForestAPI}.

Lemma push_slide (x : Q) (h : list (list Q)) : push x h = inr (slide x h).
Proof.
  unfold push, slide, append, len, row.
  destruct (HISTORY_SIZE <? length (h ++ [[x]]))%nat; [|reflexivity].
  destruct h; reflexivity.
Qed.

Lemma classify_total (h : list (list Q)) (x : Q) :
  classify h x =
  inr (fit 0.1 42 h, [label (fit 0.1 42 h) [x]], label (fit 0.1 42 h) [x]).
Proof. reflexivity. Qed.

Lemma loop_body_total (env : tick) (g : globals) :
  loop_body env g = inr (next env g, printed env g).
Proof.
  unfold loop_body, next, printed.
  rewrite push_slide. cbn [bind]. unfold len.
  destruct (20 <=? length (slide _ _))%nat; [|reflexivity].
  rewrite classify_total. reflexivity.
Qed.

Lemma iterate_total (envs : list tick) :
  forall g, iterate envs g = inr (final envs g, stdout envs g).
Proof.
  induction envs as [|env rest IH]; intros g; [reflexivity|].
  cbn [iterate final stdout].
  rewrite loop_body_total. cbn [bind fst snd].
  rewrite IH. reflexivity.
Qed.

Lemma next_history (env : tick) (g : globals) :
  latency_history (next env g) = slide (get_latency (probe env)) (latency_history g).
Proof.
  unfold next. destruct (20 <=? _)%nat; reflexivity.
Qed.

Lemma final_history (envs : list tick) :
  forall g, latency_history (final envs g) = window (latency_history g) (samples envs).
Proof.
  induction envs as [|env rest IH]; intros g; [reflexivity|].
  cbn [final]. rewrite IH, next_history. reflexivity.
Qed.

Lemma iterate_final (envs : list tick) (g g' : globals) (out : list line) :
  iterate envs g = inr (g', out) -> g' = final envs g.
Proof. rewrite iterate_total. intros Heq. congruence. Qed.

Lemma final_app (envs more : list tick) :
  forall g, final (envs ++ more) g = final more (final envs g).
Proof.
  induction envs as [|env rest IH]; intros g; [reflexivity|].
  cbn [app final]. apply IH.
Qed.

Lemma slide_length (x : Q) (h : list (list Q)) :
  length (slide x h) =
  if (length h <? HISTORY_SIZE)%nat then S (length h) else length h.
Proof.
  unfold slide.
  destruct (Nat.ltb_spec HISTORY_SIZE (length (h ++ [row x])));
    destruct (Nat.ltb_spec (length h) HISTORY_SIZE);
    rewrite ?length_tl, length_app in *; cbn [length] in *; lia.
Qed.

Lemma slide_bound (x : Q) (h : list (list Q)) :
  (length h <= HISTORY_SIZE)%nat -> (length (slide x h) <= HISTORY_SIZE)%nat.
Proof.
  intros Hh. rewrite slide_length.
  destruct (Nat.ltb_spec (length h) HISTORY_SIZE); lia.
Qed.

Lemma slide_last_rows (x : Q) (h : list (list Q)) :
  (length h <= HISTORY_SIZE)%nat ->
  slide x h = skipn (length (h ++ [row x]) - HISTORY_SIZE) (h ++ [row x]).
Proof.
  intros Hh. unfold slide.
  destruct (Nat.ltb_spec HISTORY_SIZE (length (h ++ [row x]))) as [Hlt|Hge].
  - rewrite length_app in *. cbn [length] in *.
    replace (length h + 1 - HISTORY_SIZE)%nat with 1%nat by lia.
    destruct h; reflexivity.
  - replace (length (h ++ [row x]) - HISTORY_SIZE)%nat with 0%nat by lia.
    reflexivity.
Qed.

Lemma window_last_rows (xs : list Q) :
  forall h, (length h <= HISTORY_SIZE)%nat ->
  window h xs =
  skipn (length (h ++ map row xs) - HISTORY_SIZE) (h ++ map row xs) /\
  (length (window h xs) <= HISTORY_SIZE)%nat.
Proof.
  induction xs as [|x xs IH]; intros h Hh.
  - cbn [window fold_left map]. rewrite app_nil_r.
    replace (length h - HISTORY_SIZE)%nat with 0%nat by lia. split; [reflexivity|exact Hh].
  - cbn [window fold_left map].
    destruct (IH (slide x h) (slide_bound x h Hh)) as [IHeq IHle].
    fold (window (slide x h) xs). split; [|exact IHle].
    rewrite IHeq, (slide_last_rows x h Hh).
    set (full := h ++ [row x]).
    replace (h ++ row x :: map row xs) with (full ++ map row xs)
      by (unfold full; rewrite <- app_assoc; reflexivity).
    assert (Hfull : (length full <= S HISTORY_SIZE)%nat)
      by (unfold full; rewrite length_app; cbn [length]; lia).
    set (d := (length full - HISTORY_SIZE)%nat).
    assert (Hd : (d <= length full)%nat) by (unfold d; lia).
    replace (skipn d full ++ map row xs) with (skipn d (full ++ map row xs)).
    + rewrite skipn_skipn. f_equal.
      rewrite length_skipn, !length_app. unfold d. lia.
    + rewrite skipn_app.
      replace (d - length full)%nat with 0%nat by lia. reflexivity.
Qed.

Lemma window_length (xs : list Q) :
  forall h, (length h <= HISTORY_SIZE)%nat ->
  length (window h xs) = Nat.min (length h + length xs) HISTORY_SIZE.
Proof.
  induction xs as [|x xs IH]; intros h Hh.
  - cbn [window fold_left length]. lia.
  - cbn [window fold_left length]. fold (window (slide x h) xs).
    rewrite (IH _ (slide_bound x h Hh)), slide_length.
    destruct (Nat.ltb_spec (length h) HISTORY_SIZE); lia.
Qed.

Lemma slide_last (x : Q) (h : list (list Q)) : last (slide x h) [] = row x.
Proof.
  unfold slide.
  destruct (Nat.ltb_spec HISTORY_SIZE (length (h ++ [row x]))) as [Hlt|Hge].
  - destruct h as [|r h]; cbn [app tl length] in *.
    + unfold HISTORY_SIZE in Hlt. lia.
    + apply last_last.
  - apply last_last.
Qed.

(** What an iteration computes from the window it has just updated: the
    estimator, the labels and the line are functions of that window and of
    the latest latency. *)
Lemma verdict_of_window (env : tick) (g : globals) (h : list (list Q)) (x : Q) :
  slide (get_latency (probe env)) (latency_history g) = h ->
  get_latency (probe env) = x ->
  (20 <= length h)%nat ->
  next env g =
    {| latency_history := h;
       current_latency := Some x;
       clf := Some (fit 0.1 42 h);
       prediction := Some [label (fit 0.1 42 h) [x]];
       timestamp := Some (now env) |} /\
  printed env g = Some (report (now env) x (label (fit 0.1 42 h) [x])).
Proof.
  intros Hh Hx Hlen. unfold next, printed. rewrite Hh, Hx.
  destruct (Nat.leb_spec 20 (length h)); [split; reflexivity | lia].
Qed.

Lemma skipped_below_twenty (env : tick) (g : globals) (h : list (list Q)) :
  slide (get_latency (probe env)) (latency_history g) = h ->
  (length h < 20)%nat ->
  next env g =
    {| latency_history := h;
       current_latency := Some (get_latency (probe env));
       clf := clf g;
       prediction := prediction g;
       timestamp := timestamp g |} /\
  printed env g = None.
Proof.
  intros Hh Hlen. unfold next, printed. rewrite Hh.
  destruct (Nat.leb_spec 20 (length h)); [lia | split; reflexivity].
Qed.

Lemma report_flagged (stamp : string) (x : Q) (p : Z) :
  flagged (report stamp x p) = (p =? -1)%Z /\ latency_of (report stamp x p) = x.
Proof. unfold report. destruct (p =? -1)%Z; split; reflexivity. Qed.

End Facts.

End MonitorFacts.

(** ** Properties of the loop *)

Module MonitorClaims.

Import Py Monitor MonitorFacts.
Local Open Scope py_scope.

Section Claims.

Context `{API : IsolationForestAPI}.

(** C1.  Whatever the latencies fed to the loop from its start, the window
    never holds more than [HISTORY_SIZE] rows; and after [HISTORY_SIZE + k]
    iterations it holds exactly the last [HISTORY_SIZE] latencies, oldest
    first. *)
Theorem window_bound_and_fifo :
  (forall envs : list tick,
      exists g out,
        iterate envs start = inr (g, out) /\
        (len (latency_history g) <= HISTORY_SIZE)%nat) /\
  (forall (envs : list tick) (k : nat),
      length envs = (HISTORY_SIZE + k)%nat ->
      exists g out,
        iterate envs start = inr (g, out) /\
        len (latency_history g) = HISTORY_SIZE /\
        latency_history g = map row (skipn k (samples envs))).
Proof.
  split.
  - intros envs. exists (final envs start), (stdout envs start).
    split; [apply iterate_total|].
    rewrite final_history. unfold len.
    apply (window_last_rows (samples envs) []). cbn. lia.
  - intros envs k Hk. exists (final envs start), (stdout envs start).
    split; [apply iterate_total|].
    rewrite final_history. unfold len. cbn [start latency_history].
    assert (Hs : length (samples envs) = (HISTORY_SIZE + k)%nat)
      by (unfold samples; rewrite length_map; exact Hk).
    split.
    + rewrite window_length by (cbn; lia). cbn [length]. lia.
    + destruct (window_last_rows (samples envs) []) as [Heq _]; [cbn; lia|].
      rewrite Heq. cbn [app]. rewrite length_map, Hs.
      replace (HISTORY_SIZE + k - HISTORY_SIZE)%nat with k by lia.
      apply skipn_map.
Qed.

(** C10.  From one iteration to the next the window never gets shorter; it
    gets longer by exactly one row while it is below [HISTORY_SIZE]; and
    once it holds [HISTORY_SIZE] rows it holds [HISTORY_SIZE] rows after any
    number of further iterations. *)
Theorem occupancy_monotone_and_saturating :
  forall (envs : list tick) (env : tick),
  exists g out g' o,
    iterate envs start = inr (g, out) /\
    loop_body env g = inr (g', o) /\
    (len (latency_history g) <= len (latency_history g'))%nat /\
    ((len (latency_history g) < HISTORY_SIZE)%nat ->
     len (latency_history g') = S (len (latency_history g))) /\
    (len (latency_history g) = HISTORY_SIZE ->
     forall more : list tick,
     exists g'' out'',
       iterate more g = inr (g'', out'') /\
       len (latency_history g'') = HISTORY_SIZE).
Proof.
  intros envs env.
  exists (final envs start), (stdout envs start),
         (next env (final envs start)), (printed env (final envs start)).
  split; [apply iterate_total|]. split; [apply loop_body_total|].
  unfold len. rewrite next_history, slide_length.
  assert (Hb : (length (latency_history (final envs start)) <= HISTORY_SIZE)%nat).
  { rewrite final_history. apply (window_last_rows (samples envs) []). cbn. lia. }
  destruct (Nat.ltb_spec (length (latency_history (final envs start))) HISTORY_SIZE).
  - repeat split; try lia.
  - repeat split; try lia.
    intros Hfull more.
    exists (final more (final envs start)), (stdout more (final envs start)).
    split; [apply iterate_total|].
    rewrite final_history, window_length by exact Hb. lia.
Qed.


(** C9.  Two runs of at least [HISTORY_SIZE] iterations each, whose last
    [HISTORY_SIZE] latencies agree, end with the same window, the same
    fitted estimator, the same labels and the same verdict in their last
    iteration: a latency that has left the window has no effect. *)
Theorem evicted_samples_have_no_influence :
  forall (prior1 prior2 : list tick) (env1 env2 : tick),
    (HISTORY_SIZE <= length (prior1 ++ [env1]))%nat ->
    (HISTORY_SIZE <= length (prior2 ++ [env2]))%nat ->
    skipn (length (prior1 ++ [env1]) - HISTORY_SIZE) (samples (prior1 ++ [env1])) =
    skipn (length (prior2 ++ [env2]) - HISTORY_SIZE) (samples (prior2 ++ [env2])) ->
    exists g1 out1 g2 out2 g1' l1 g2' l2,
      iterate prior1 start = inr (g1, out1) /\
      iterate prior2 start = inr (g2, out2) /\
      loop_body env1 g1 = inr (g1', Some l1) /\
      loop_body env2 g2 = inr (g2', Some l2) /\
      latency_history g1' = latency_history g2' /\
      clf g1' = clf g2' /\
      prediction g1' = prediction g2' /\
      flagged l1 = flagged l2 /\
      latency_of l1 = latency_of l2.
Proof.
  intros prior1 prior2 env1 env2 Hlen1 Hlen2 Hsame.
  set (g1 := final prior1 start). set (g2 := final prior2 start).
  assert (Hw : forall prior env,
             (HISTORY_SIZE <= length (prior ++ [env]))%nat ->
             slide (get_latency (probe env)) (latency_history (final prior start)) =
             map row (skipn (length (prior ++ [env]) - HISTORY_SIZE)
                            (samples (prior ++ [env]))) /\
             length (slide (get_latency (probe env))
                           (latency_history (final prior start))) = HISTORY_SIZE).
  { intros prior env Hlen.
    rewrite <- next_history.
    change (next env (final prior start)) with (final [env] (final prior start)).
    rewrite <- final_app, final_history. cbn [start latency_history].
    destruct (window_last_rows (samples (prior ++ [env])) []) as [Heq _]; [cbn; lia|].
    split.
    - rewrite Heq. cbn [app]. rewrite length_map.
      unfold samples at 1. rewrite length_map. apply skipn_map.
    - rewrite window_length by (cbn; lia). cbn [length].
      unfold samples. rewrite length_map. lia. }
  destruct (Hw prior1 env1 Hlen1) as [Hw1 Hl1].
  destruct (Hw prior2 env2 Hlen2) as [Hw2 Hl2].
  set (h := slide (get_latency (probe env1)) (latency_history g1)).
  assert (Hh2 : slide (get_latency (probe env2)) (latency_history g2) = h).
  { unfold h, g1, g2. rewrite Hw1, Hw2, Hsame. reflexivity. }
  assert (Hx : get_latency (probe env2) = get_latency (probe env1)).
  { pose proof (slide_last (get_latency (probe env2)) (latency_history g2)) as L2.
    pose proof (slide_last (get_latency (probe env1)) (latency_history g1)) as L1.
    rewrite Hh2 in L2. fold h in L1. rewrite L1 in L2.
    unfold row in L2. congruence. }
  assert (H20 : (20 <= length h)%nat) by (unfold h, g1; rewrite Hl1; unfold HISTORY_SIZE; lia).
  destruct (verdict_of_window env1 g1 h _ eq_refl eq_refl H20) as [Hn1 Hp1].
  destruct (verdict_of_window env2 g2 h _ Hh2 Hx H20) as [Hn2 Hp2].
  exists g1, (stdout prior1 start), g2, (stdout prior2 start).
  exists (next env1 g1), (report (now env1) (get_latency (probe env1))
                                 (label (fit 0.1 42 h) [get_latency (probe env1)])).
  exists (next env2 g2), (report (now env2) (get_latency (probe env1))
                                 (label (fit 0.1 42 h) [get_latency (probe env1)])).
  rewrite !loop_body_total, Hp1, Hp2, Hn1, Hn2. cbn [latency_history clf prediction].
  repeat split; try apply iterate_total.
  - destruct (report_flagged (now env1) (get_latency (probe env1))
                (label (fit 0.1 42 h) [get_latency (probe env1)])) as [-> _].
    destruct (report_flagged (now env2) (get_latency (probe env1))
                (label (fit 0.1 42 h) [get_latency (probe env1)])) as [-> _].
    reflexivity.
  - destruct (report_flagged (now env1) (get_latency (probe env1))
                (label (fit 0.1 42 h) [get_latency (probe env1)])) as [_ ->].
    destruct (report_flagged (now env2) (get_latency (probe env1))
                (label (fit 0.1 42 h) [get_latency (probe env1)])) as [_ ->].
    reflexivity.
Qed.

(** C2, as the script has it.  The list operations of an iteration never
    raise.  When the window holds fewer than 20 rows after the push, the
    iteration ends without fitting, without printing and without raising;
    when it holds at least 20 rows, the estimator is fitted and one verdict
    is printed. *)
Theorem history_gate_skips_silently :
  (forall (env : tick) (g : globals),
      exists h, push (get_latency (probe env)) (latency_history g) = inr h) /\
  (forall (env : tick) (g : globals) (h : list (list Q)),
      push (get_latency (probe env)) (latency_history g) = inr h ->
      (len h < 20)%nat ->
      exists g',
        loop_body env g = inr (g', None) /\
        latency_history g' = h /\
        clf g' = clf g /\
        prediction g' = prediction g) /\
  (forall (env : tick) (g : globals) (h : list (list Q)),
      push (get_latency (probe env)) (latency_history g) = inr h ->
      (20 <= len h)%nat ->
      exists g' model labels p,
        classify h (get_latency (probe env)) = inr (model, labels, p) /\
        loop_body env g =
          inr (g', Some (report (now env) (get_latency (probe env)) p)) /\
        latency_history g' = h /\
        clf g' = Some model /\
        prediction g' = Some labels).
Proof.
  split; [|split].
  - intros env g. eexists. apply push_slide.
  - intros env g h Hpush Hlen. rewrite push_slide in Hpush. injection Hpush as Hh.
    destruct (skipped_below_twenty env g h Hh Hlen) as [Hn Hp].
    exists (next env g). rewrite loop_body_total, Hp, Hn. repeat split.
  - intros env g h Hpush Hlen. rewrite push_slide in Hpush. injection Hpush as Hh.
    destruct (verdict_of_window env g h _ Hh eq_refl Hlen) as [Hn Hp].
    exists (next env g). do 3 eexists.
    rewrite classify_total, loop_body_total, Hp, Hn. repeat split.
Qed.

End Claims.

End MonitorClaims.

(** ** The ranking of the detector

    The verdict of the detector looks the query up among the first entries
    of a sorted list.  The position of the query in that list is the number
    of history entries that score at least as high. *)

Module DetectorFacts.

Import Detector.
Local Open Scope R_scope.

Lemma ranked_from_cons (i : nat) (s : R) (scores : list R) :
  ranked_from i (s :: scores) = place (i, s) (ranked_from (S i) scores).
Proof. reflexivity. Qed.

Lemma place_before (e q : nat * R) (A B : list (nat * R)) :
  snd q <= snd e ->
  exists A', place e (A ++ q :: B) = A' ++ q :: B /\
             length A' = S (length A) /\
             (Forall (fun a => snd q <= snd a) A ->
              Forall (fun a => snd q <= snd a) A') /\
             (forall j, fst e <> j -> Forall (fun a => fst a <> j) A ->
                        Forall (fun a => fst a <> j) A').
Proof.
  intros Hq. induction A as [|a A IH].
  - exists [e]. cbn [app place].
    destruct (Rlt_dec (snd e) (snd q)) as [Hlt|_]; [lra|].
    repeat split; auto.
  - cbn [app place]. destruct (Rlt_dec (snd e) (snd a)) as [Hlt|Hge].
    + destruct IH as (A' & Heq & Hlen & Hall & Hidx).
      exists (a :: A'). rewrite Heq. cbn [app length]. repeat split.
      * lia.
      * intros HA. inversion HA; subst. constructor; auto.
      * intros j Hj HA. inversion HA; subst. constructor; auto.
    + exists (e :: a :: A). repeat split.
      * intros HA. constructor; auto.
      * intros j Hj HA. constructor; auto.
Qed.

Lemma place_behind (e q : nat * R) (A B : list (nat * R)) :
  snd e < snd q ->
  Forall (fun a => snd q <= snd a) A ->
  exists B', place e (A ++ q :: B) = A ++ q :: B'.
Proof.
  intros Hq HA. induction A as [|a A IH].
  - cbn [app place]. destruct (Rlt_dec (snd e) (snd q)) as [_|Hge]; [|lra].
    eexists. reflexivity.
  - inversion HA as [|? ? Ha HA']; subst. cbn [app place].
    destruct (Rlt_dec (snd e) (snd a)) as [_|Hge]; [|lra].
    destruct (IH HA') as [B' Heq]. exists B'. rewrite Heq. reflexivity.
Qed.

(** The query, entered last, stands behind the entries that score at least
    as high and before all the others. *)
Lemma query_position (sq : R) (hs : list R) :
  forall i,
  exists A B,
    ranked_from i (hs ++ [sq]) = A ++ (i + length hs, sq)%nat :: B /\
    length A = at_least sq hs /\
    Forall (fun a => sq <= snd a) A /\
    Forall (fun a => fst a <> (i + length hs)%nat) A.
Proof.
  induction hs as [|s hs IH]; intros i.
  - exists [], []. cbn. rewrite Nat.add_0_r. repeat split; constructor.
  - cbn [app]. rewrite ranked_from_cons.
    destruct (IH (S i)) as (A & B & Heq & Hlen & Hall & Hidx).
    rewrite Heq.
    replace (i + length (s :: hs))%nat with (S i + length hs)%nat
      by (cbn [length]; lia).
    unfold at_least. cbn [filter].
    destruct (Rle_dec sq s) as [Hle|Hnle].
    + destruct (place_before (i, s) (S i + length hs, sq)%nat A B Hle)
        as (A' & Heq' & Hlen' & Hall' & Hidx').
      exists A', B. rewrite Heq'. cbn [length]. repeat split.
      * rewrite Hlen', Hlen. reflexivity.
      * apply Hall'. exact Hall.
      * apply Hidx'; [cbn; lia | exact Hidx].
    + destruct (place_behind (i, s) (S i + length hs, sq)%nat A B) as [B' Heq'].
      * cbn [snd]. lra.
      * exact Hall.
      * exists A, B'. rewrite Heq'. repeat split; assumption.
Qed.

Lemma found_in_prefix (j : nat) (q : nat * R) (A B : list (nat * R)) :
  fst q = j ->
  Forall (fun a => fst a <> j) A ->
  forall k,
  existsb (fun e => (fst e =? j)%nat) (firstn k (A ++ q :: B)) =
  (length A <? k)%nat.
Proof.
  intros Hq HA. induction HA as [|a A Ha HA IH]; intros k.
  - destruct k as [|k]; [reflexivity|].
    cbn [app firstn existsb length]. rewrite Hq, Nat.eqb_refl. reflexivity.
  - destruct k as [|k]; [reflexivity|].
    cbn [app firstn existsb length].
    destruct (Nat.eqb_spec (fst a) j) as [Heq|_]; [contradiction|].
    rewrite IH. reflexivity.
Qed.

(** The query is within the top fraction exactly when fewer entries of the
    history score at least as high than the top fraction has places. *)
Lemma query_in_top_fraction (fraction : Q) (sq : R) (hs : list R) :
  in_top_fraction fraction (hs ++ [sq]) (length hs) =
  (at_least sq hs <? top_count fraction (S (length hs)))%nat.
Proof.
  unfold in_top_fraction.
  replace (length (hs ++ [sq])) with (S (length hs))
    by (rewrite length_app; cbn [length]; lia).
  change (ranked (hs ++ [sq])) with (ranked_from 0 (hs ++ [sq])).
  destruct (query_position sq hs 0) as (A & B & Heq & Hlen & _ & Hidx).
  rewrite Heq. cbn [Nat.add] in *.
  rewrite (found_in_prefix (length hs) (length hs, sq) A B eq_refl Hidx), Hlen.
  reflexivity.
Qed.

Lemma top_count_monotone (f1 f2 : Q) (N : nat) :
  (f1 <= f2)%Q -> (top_count f1 N <= top_count f2 N)%nat.
Proof.
  intros Hf. unfold top_count.
  assert (Hm : (f1 * inject_Z (Z.of_nat N) <= f2 * inject_Z (Z.of_nat N))%Q).
  { apply Qmult_le_compat_r; [exact Hf|].
    unfold Qle. cbn. lia. }
  pose proof (Qfloor_resp_le _ _ Hm). lia.
Qed.

Lemma top_count_below (f : Q) (N : nat) :
  (f < 1)%Q -> (1 <= N)%nat -> (top_count f N < N)%nat.
Proof.
  intros Hf HN. unfold top_count.
  assert (Hm : (f * inject_Z (Z.of_nat N) < 1 * inject_Z (Z.of_nat N))%Q).
  { apply Qmult_lt_compat_r; [|exact Hf].
    unfold Qlt. cbn. lia. }
  rewrite Qmult_1_l in Hm.
  pose proof (Qfloor_le (f * inject_Z (Z.of_nat N))) as Hfl.
  pose proof (Qle_lt_trans _ _ _ Hfl Hm) as Hlt.
  set (z := Qfloor (f * inject_Z (Z.of_nat N))) in *.
  unfold Qlt, inject_Z in Hlt. cbn [Qnum Qden] in Hlt. lia.
Qed.

Lemma at_least_app (s : R) (l1 l2 : list R) :
  at_least s (l1 ++ l2) = (at_least s l1 + at_least s l2)%nat.
Proof. unfold at_least. rewrite filter_app, length_app. reflexivity. Qed.

Lemma at_least_repeat_same (s : R) (n : nat) : at_least s (repeat s n) = n.
Proof.
  unfold at_least. induction n as [|n IH]; [reflexivity|].
  cbn [repeat filter]. destruct (Rle_dec s s) as [_|Hn]; [|lra].
  cbn [length]. rewrite IH. reflexivity.
Qed.

Lemma at_least_repeat_below (s s' : R) (n : nat) :
  s' < s -> at_least s (repeat s' n) = 0%nat.
Proof.
  intros Hlt. unfold at_least. induction n as [|n IH]; [reflexivity|].
  cbn [repeat filter]. destruct (Rle_dec s s') as [Hle|_]; [lra|]. exact IH.
Qed.

(** *** The expected path length is positive from two points on *)

Lemma ln_two_le (r : R) : 2 <= r -> / 2 < ln r.
Proof.
  intros Hr. pose proof ln_lt_2 as H2.
  destruct (Rle_lt_or_eq_dec 2 r Hr) as [Hlt|Heq].
  - pose proof (ln_increasing 2 r ltac:(lra) Hlt). lra.
  - rewrite <- Heq. exact H2.
Qed.

Lemma c_positive (n : nat) : (2 <= n)%nat -> 0 < c n.
Proof.
  intros Hn. unfold c.
  destruct (Nat.leb_spec n 1) as [Hle|_]; [lia|].
  destruct n as [|[|m]]; try lia.
  replace (S (S m) - 1)%nat with (S m) by lia.
  unfold H. rewrite (S_INR (S m)).
  set (r := INR (S m)).
  assert (Hr : 1 <= r) by (unfold r; change 1 with (INR 1); apply le_INR; lia).
  assert (Hq : r / (r + 1) < 1).
  { unfold Rdiv. apply (Rmult_lt_reg_r (r + 1)); [lra|].
    rewrite Rmult_assoc, Rinv_l by lra. lra. }
  assert (Hl : 2 * r / (r + 1) = 2 * (r / (r + 1))) by (unfold Rdiv; ring).
  rewrite Hl.
  destruct m as [|m].
  - assert (Hr1 : r = 1) by reflexivity.
    rewrite Hr1 in *. rewrite ln_1.
    replace (1 / (1 + 1)) with (/ 2) by (unfold Rdiv; rewrite Rmult_1_l; reflexivity).
    lra.
  - assert (Hr2 : 2 <= r).
    { unfold r. change 2 with (INR 2). apply le_INR. lia. }
    pose proof (ln_two_le r Hr2). lra.
Qed.

Lemma c_one : c 1 = 0.
Proof. reflexivity. Qed.

(** *** A forest of identical trees *)

Lemma total_repeat (r : R) (T : nat) : total (repeat r T) = INR T * r.
Proof.
  induction T as [|T IH]; [cbn; ring|].
  cbn [repeat total fold_right]. fold (total (repeat r T)).
  rewrite IH, S_INR. ring.
Qed.

Lemma mean_path_length_repeat (t : IsolationTree) (T : nat) (x : Q) :
  (1 <= T)%nat -> mean_path_length (repeat t T) x = path_length t x.
Proof.
  intros HT. unfold mean_path_length.
  rewrite map_repeat, total_repeat, repeat_length.
  assert (INR T <> 0) by (apply not_0_INR; lia).
  field. assumption.
Qed.

(** *** A history without variance *)

Lemma maximum_repeat (x : Q) (n : nat) : maximum (repeat x (S n)) = x.
Proof.
  unfold maximum. change (hd 0%Q (repeat x (S n))) with x.
  generalize (S n). intros m. induction m as [|m IH]; [reflexivity|].
  cbn [repeat fold_right]. rewrite IH. destruct (Qle_bool x x); reflexivity.
Qed.

Lemma minimum_repeat (x : Q) (n : nat) : minimum (repeat x (S n)) = x.
Proof.
  unfold minimum. change (hd 0%Q (repeat x (S n))) with x.
  generalize (S n). intros m. induction m as [|m IH]; [reflexivity|].
  cbn [repeat fold_right]. rewrite IH. destruct (Qle_bool x x); reflexivity.
Qed.

Section ConstantHistory.

Context `{G : Generator}.

Lemma grow_constant (x : Q) (n : nat) :
  forall (room depth : nat) (g : rng),
    grow room depth g (repeat x n) = (Leaf depth n, g).
Proof.
  intros room depth g. destruct room as [|room]; cbn [grow].
  - rewrite repeat_length. reflexivity.
  - rewrite repeat_length.
    destruct (n <=? 1)%nat; [reflexivity|].
    destruct n as [|n]; [reflexivity|].
    rewrite maximum_repeat, minimum_repeat.
    assert (Hx : Qle_bool x x = true) by (apply Qle_bool_iff, Qle_refl).
    rewrite Hx. reflexivity.
Qed.

Lemma plant_constant (x : Q) (n : nat) :
  (n <= SUBSAMPLE_SIZE)%nat ->
  forall (T : nat) (g : rng), plant T g (repeat x n) = repeat (Leaf 0 n) T.
Proof.
  intros Hn T. induction T as [|T IH]; intros g; [reflexivity|].
  cbn [plant repeat]. unfold draw_points. rewrite repeat_length.
  destruct (Nat.leb_spec n SUBSAMPLE_SIZE) as [_|Hgt]; [|lia].
  rewrite grow_constant, IH. reflexivity.
Qed.

End ConstantHistory.

Lemma score_of_single_leaves (n T : nat) (y : Q) :
  (2 <= n)%nat -> (1 <= T)%nat -> score (repeat (Leaf 0 n) T) n y = / 2.
Proof.
  intros Hn HT. unfold score.
  rewrite mean_path_length_repeat by exact HT.
  unfold path_length. cbn [leaf_of INR]. rewrite Rplus_0_l.
  pose proof (c_positive n Hn) as Hc.
  replace (- c n / c n) with (- (1)) by (field; lra).
  rewrite Rpower_Ropp, Rpower_1 by lra. reflexivity.
Qed.

(** *** Queries above every point of the history *)

Lemma fold_max_upper (x init : Q) (l : list Q) :
  (init <= x)%Q ->
  Forall (fun p => (p <= x)%Q) l ->
  (fold_right (fun a m => if Qle_bool m a then a else m) init l <= x)%Q.
Proof.
  intros Hinit Hall. induction Hall as [|a l Ha Hall IH]; [exact Hinit|].
  cbn [fold_right]. destruct (Qle_bool _ a); assumption.
Qed.

Lemma maximum_upper (x : Q) (l : list Q) :
  Forall (fun p => (p <= x)%Q) l -> l <> [] -> (maximum l <= x)%Q.
Proof.
  intros Hall Hne. unfold maximum. apply fold_max_upper; [|exact Hall].
  destruct l as [|a l]; [contradiction|]. inversion Hall; assumption.
Qed.

Lemma fold_max_ge (init : Q) (l : list Q) :
  (init <= fold_right (fun a m => if Qle_bool m a then a else m) init l)%Q /\
  Forall (fun p =>
            (p <= fold_right (fun a m => if Qle_bool m a then a else m) init l)%Q) l.
Proof.
  induction l as [|a l [IHinit IHall]]; [split; [apply Qle_refl | constructor]|].
  cbn [fold_right].
  set (m := fold_right (fun a m => if Qle_bool m a then a else m) init l) in *.
  destruct (Qle_bool m a) eqn:Hcmp.
  - apply Qle_bool_iff in Hcmp. split; [Lqa.lra|].
    constructor; [apply Qle_refl|].
    apply (Forall_impl _ (fun p (Hp : (p <= m)%Q) => Qle_trans _ _ _ Hp Hcmp) IHall).
  - assert (Hlt : (a < m)%Q).
    { apply Qnot_le_lt. intros Hle. apply Qle_bool_iff in Hle. congruence. }
    split; [exact IHinit|]. constructor; [Lqa.lra | exact IHall].
Qed.

Lemma maximum_ge (l : list Q) : Forall (fun p => (p <= maximum l)%Q) l.
Proof. unfold maximum. apply fold_max_ge. Qed.

Lemma midpoint_admissible : admissible Midpoint.
Proof.
  intros g lo hi Hlt. cbn [uniform Midpoint fst]. split.
  - apply Qlt_shift_div_l; Lqa.lra.
  - apply Qlt_shift_div_r; Lqa.lra.
Qed.

(** *** Calls served with a seed *)

Section Seeded.

Context `{G : Generator}.

Lemma plant_from_trees (history : list Q) :
  forall (T : nat) (g : rng), fst (plant_from T g history) = plant T g history.
Proof.
  induction T as [|T IH]; intros g; [reflexivity|].
  cbn [plant_from plant].
  destruct (draw_points g history) as [points g1].
  destruct (grow (Nat.log2_up (psi history)) 0 g1 points) as [t g2].
  specialize (IH g2). destruct (plant_from T g2 history) as [rest g3].
  cbn [fst] in *. rewrite IH. reflexivity.
Qed.

Lemma classify_call_seeded (cfg : config) (history : list Q) (query : Q)
    (current : rng) :
  fst (classify_call (Some (randomSeed cfg)) cfg history query current) =
  classify cfg history query.
Proof.
  unfold classify_call, classify, build.
  pose proof (plant_from_trees history (ensembleSize cfg) (seeded (randomSeed cfg)))
    as Htrees.
  destruct (plant_from (ensembleSize cfg) (seeded (randomSeed cfg)) history)
    as [forest left].
  cbn [fst] in *. rewrite Htrees. reflexivity.
Qed.

Lemma serve_seeded (cfg : config) (calls : list (list Q * Q)) :
  forall current : rng,
    serve (Some (randomSeed cfg)) cfg calls current =
    map (fun call => classify cfg (fst call) (snd call)) calls.
Proof.
  induction calls as [|[history query] rest IH]; intros current; [reflexivity|].
  cbn [serve map fst snd].
  pose proof (classify_call_seeded cfg history query current) as Hcall.
  destruct (classify_call (Some (randomSeed cfg)) cfg history query current)
    as [v left].
  cbn [fst] in Hcall. rewrite Hcall, IH. reflexivity.
Qed.

End Seeded.

(** *** A query beyond the samples it follows *)

Lemma fold_min_le (init : Q) (l : list Q) :
  (fold_right (fun a m => if Qle_bool a m then a else m) init l <= init)%Q /\
  Forall (fun p =>
            (fold_right (fun a m => if Qle_bool a m then a else m) init l <= p)%Q) l.
Proof.
  induction l as [|a l [IHinit IHall]]; [split; [apply Qle_refl | constructor]|].
  cbn [fold_right].
  set (m := fold_right (fun a m => if Qle_bool a m then a else m) init l) in *.
  destruct (Qle_bool a m) eqn:Hcmp.
  - apply Qle_bool_iff in Hcmp. split; [Lqa.lra|].
    constructor; [apply Qle_refl|].
    apply (Forall_impl _ (fun p (Hp : (m <= p)%Q) => Qle_trans _ _ _ Hcmp Hp) IHall).
  - assert (Hlt : (m < a)%Q).
    { apply Qnot_le_lt. intros Hle. apply Qle_bool_iff in Hle. congruence. }
    split; [exact IHinit|]. constructor; [Lqa.lra | exact IHall].
Qed.

Lemma minimum_le (l : list Q) : Forall (fun p => (minimum l <= p)%Q) l.
Proof. unfold minimum. apply fold_min_le. Qed.

Lemma c_not_negative (n : nat) : 0 <= c n.
Proof.
  destruct (Nat.le_gt_cases n 1) as [Hle|Hgt].
  - unfold c. destruct (Nat.leb_spec n 1); [lra | lia].
  - apply Rlt_le, c_positive. lia.
Qed.

Lemma filter_all (A : Type) (f : A -> bool) (l : list A) :
  Forall (fun a => f a = true) l -> filter f l = l.
Proof.
  intros Hall. induction Hall as [|a l Ha Hall IH]; [reflexivity|].
  cbn [filter]. rewrite Ha, IH. reflexivity.
Qed.

Lemma filter_none (A : Type) (f : A -> bool) (l : list A) :
  Forall (fun a => f a = false) l -> filter f l = [].
Proof.
  intros Hall. induction Hall as [|a l Ha Hall IH]; [reflexivity|].
  cbn [filter]. rewrite Ha, IH. reflexivity.
Qed.

Lemma at_least_none (s : R) (l : list R) :
  Forall (fun s' => s' < s) l -> at_least s l = 0%nat.
Proof.
  intros Hall. unfold at_least.
  induction Hall as [|s' l Hs Hall IH]; [reflexivity|].
  cbn [filter]. destruct (Rle_dec s s') as [Hle|_]; [lra | exact IH].
Qed.

Lemma total_all_one (l : list R) :
  Forall (fun r => r = 1) l -> total l = INR (length l).
Proof.
  intros Hall. induction Hall as [|r l Hr Hall IH]; [reflexivity|].
  cbn [total fold_right length]. fold (total l). rewrite IH, Hr, S_INR. ring.
Qed.

Lemma total_all_above_one (l : list R) :
  l <> [] -> Forall (fun r => 1 < r) l -> INR (length l) < total l.
Proof.
  intros Hne Hall. induction Hall as [|r l Hr Hall IH]; [contradiction|].
  cbn [total fold_right length]. fold (total l). rewrite S_INR.
  destruct l as [|r' l].
  - cbn [total fold_right length INR]. lra.
  - assert (Hrest : INR (length (r' :: l)) < total (r' :: l))
      by (apply IH; discriminate).
    lra.
Qed.

Section FarOut.

Context `{G : Generator}.

Lemma plant_length (history : list Q) :
  forall (T : nat) (g : rng), length (plant T g history) = T.
Proof.
  induction T as [|T IH]; intros g; [reflexivity|].
  cbn [plant].
  destruct (draw_points g history) as [points g1].
  destruct (grow (Nat.log2_up (psi history)) 0 g1 points) as [t g2].
  cbn [length]. rewrite IH. reflexivity.
Qed.

Lemma grow_small (room depth : nat) (g : rng) (points : list Q) :
  (length points <= 1)%nat ->
  grow room depth g points = (Leaf depth (length points), g).
Proof.
  intros Hlen. destruct room as [|room]; [reflexivity|].
  cbn [grow]. destruct (Nat.leb_spec (length points) 1); [reflexivity | lia].
Qed.

(** A leaf of a tree grown from [depth] lies at [depth] or deeper, and a
    leaf at [depth] holds all the points. *)
Lemma grow_leaf_depth (x : Q) :
  forall (room depth : nat) (g : rng) (points : list Q),
    (depth <= fst (leaf_of (fst (grow room depth g points)) x))%nat /\
    (fst (leaf_of (fst (grow room depth g points)) x) = depth ->
     snd (leaf_of (fst (grow room depth g points)) x) = length points).
Proof.
  induction room as [|room IH]; intros depth g points.
  - cbn. split; [lia | reflexivity].
  - cbn [grow].
    destruct (length points <=? 1)%nat; [cbn; split; [lia | reflexivity]|].
    destruct (Qle_bool (maximum points) (minimum points));
      [cbn; split; [lia | reflexivity]|].
    destruct (uniform g (minimum points) (maximum points)) as [s g1].
    pose proof (IH (S depth) g1 (filter (fun p => Qltb p s) points)) as Hl.
    destruct (grow room (S depth) g1 (filter (fun p => Qltb p s) points)) as [l g2].
    pose proof (IH (S depth) g2 (filter (fun p => negb (Qltb p s)) points)) as Hr.
    destruct (grow room (S depth) g2 (filter (fun p => negb (Qltb p s)) points))
      as [r g3].
    cbn [fst leaf_of] in *.
    destruct (Qltb x s); split; lia.
Qed.

Lemma path_from_depth_one (x : Q) (room : nat) (g : rng) (points : list Q) :
  (2 <= length points)%nat ->
  1 < path_length (fst (grow room 1 g points)) x.
Proof.
  intros Hlen. unfold path_length.
  destruct (grow_leaf_depth x room 1 g points) as [Hdepth Hall].
  destruct (leaf_of (fst (grow room 1 g points)) x) as [d n].
  cbn [fst snd] in *.
  destruct (Nat.eq_dec d 1) as [Hd|Hd].
  - rewrite (Hall Hd), Hd. pose proof (c_positive (length points) Hlen).
    cbn [INR]. lra.
  - assert (H2 : INR 2 <= INR d) by (apply le_INR; lia).
    cbn [INR] in H2. pose proof (c_not_negative n). lra.
Qed.

Variables (samples : list Q) (query ceiling : Q).

Hypothesis splits_inside : admissible G.
Hypothesis several : (2 <= length samples)%nat.
Hypothesis below : Forall (fun p => (p <= ceiling)%Q) samples.
Hypothesis far : (ceiling < query)%Q.
Hypothesis split_in_the_gap :
  forall g : rng,
    (ceiling < fst (uniform g (minimum (samples ++ [query]))
                            (maximum (samples ++ [query]))))%Q.

(** When the split at the root falls between the samples and the query,
    the query is alone in a leaf at depth 1 and every value up to the
    ceiling ends in the subtree of the samples. *)
Lemma grow_isolates (room : nat) (g : rng) :
  leaf_of (fst (grow (S room) 0 g (samples ++ [query]))) query = (1%nat, 1%nat) /\
  forall r : Q, (r <= ceiling)%Q ->
    1 < path_length (fst (grow (S room) 0 g (samples ++ [query]))) r.
Proof.
  cbn [grow].
  assert (Hlen : (1 < length (samples ++ [query]))%nat)
    by (rewrite length_app; cbn [length]; lia).
  destruct (Nat.leb_spec (length (samples ++ [query])) 1) as [Hle|_]; [lia|].
  assert (Hne : samples ++ [query] <> []) by (intros E; rewrite E in Hlen; cbn in Hlen; lia).
  assert (Hall : Forall (fun p => (p <= query)%Q) (samples ++ [query])).
  { apply Forall_app. split.
    - apply (Forall_impl _ (fun p (Hp : (p <= ceiling)%Q) =>
                              Qlt_le_weak _ _ (Qle_lt_trans _ _ _ Hp far)) below).
    - constructor; [apply Qle_refl | constructor]. }
  pose proof (maximum_upper query _ Hall Hne) as Hmax.
  pose proof (split_in_the_gap g) as Hgap.
  assert (Hrange : (minimum (samples ++ [query]) < maximum (samples ++ [query]))%Q).
  { destruct samples as [|p0 rest] eqn:Es; [cbn in several; lia|].
    pose proof (minimum_le ((p0 :: rest) ++ [query])) as Hmin.
    pose proof (maximum_ge ((p0 :: rest) ++ [query])) as Hge.
    assert (Hp0 : (minimum ((p0 :: rest) ++ [query]) <= p0)%Q).
    { cbn [app] in Hmin. inversion Hmin; assumption. }
    assert (Hq : (query <= maximum ((p0 :: rest) ++ [query]))%Q).
    { apply (proj1 (Forall_forall _ _) Hge). apply in_or_app. right. left. reflexivity. }
    assert (Hc : (p0 <= ceiling)%Q) by (inversion below; assumption).
    Lqa.lra. }
  destruct (Qle_bool (maximum (samples ++ [query])) (minimum (samples ++ [query])))
    eqn:Hflat.
  { apply Qle_bool_iff in Hflat. exfalso. Lqa.lra. }
  destruct (splits_inside g _ _ Hrange) as [_ Hs].
  destruct (uniform g (minimum (samples ++ [query])) (maximum (samples ++ [query])))
    as [s g1].
  cbn [fst] in Hgap, Hs.
  assert (Hb : Qle_bool s query = true) by (apply Qle_bool_iff; Lqa.lra).
  assert (Hunder : Forall (fun p => Qltb p s = true) samples).
  { eapply Forall_impl; [|exact below].
    intros p Hp. cbn beta in *. unfold Qltb.
    destruct (Qle_bool s p) eqn:Hsp; [|reflexivity].
    apply Qle_bool_iff in Hsp. exfalso. Lqa.lra. }
  assert (Hnotover : Forall (fun p => negb (Qltb p s) = false) samples).
  { eapply Forall_impl; [|exact Hunder].
    intros p Hp. cbn beta in *. rewrite Hp. reflexivity. }
  assert (Hlow : filter (fun p => Qltb p s) (samples ++ [query]) = samples).
  { rewrite filter_app, (filter_all _ _ _ Hunder).
    cbn [filter]. unfold Qltb at 1. rewrite Hb. cbn [negb]. apply app_nil_r. }
  assert (Hhigh : filter (fun p => negb (Qltb p s)) (samples ++ [query]) = [query]).
  { rewrite filter_app, (filter_none _ _ _ Hnotover).
    cbn [app filter]. unfold Qltb at 1. rewrite Hb. reflexivity. }
  rewrite Hlow, Hhigh.
  pose proof (fun r => path_from_depth_one r room g1 samples several) as Hpath.
  destruct (grow room 1 g1 samples) as [l g2].
  rewrite (grow_small room 1 g2 [query]) by (cbn; lia).
  cbn [fst leaf_of length] in *. unfold Qltb.
  rewrite Hb. cbn [negb]. split; [reflexivity|].
  intros r Hr. unfold path_length. cbn [leaf_of]. unfold Qltb.
  assert (Hbr : Qle_bool s r = false).
  { destruct (Qle_bool s r) eqn:Hb'; [|reflexivity].
    apply Qle_bool_iff in Hb'. exfalso. Lqa.lra. }
  rewrite Hbr. cbn [negb]. apply Hpath.
Qed.

Hypothesis whole : (length (samples ++ [query]) <= SUBSAMPLE_SIZE)%nat.

Lemma plant_isolates (T : nat) :
  forall g : rng,
    Forall (fun t => path_length t query = 1) (plant T g (samples ++ [query])) /\
    forall r : Q, (r <= ceiling)%Q ->
      Forall (fun t => 1 < path_length t r) (plant T g (samples ++ [query])).
Proof.
  assert (Hroom : exists room, Nat.log2_up (psi (samples ++ [query])) = S room).
  { assert (Hpsi : (2 <= psi (samples ++ [query]))%nat).
    { unfold psi. rewrite length_app in *. cbn [length] in *.
      unfold SUBSAMPLE_SIZE in *. lia. }
    pose proof (Nat.log2_up_pos (psi (samples ++ [query])) ltac:(lia)) as Hpos.
    destruct (Nat.log2_up (psi (samples ++ [query]))) as [|room]; [lia|].
    exists room. reflexivity. }
  destruct Hroom as [room Hroom].
  induction T as [|T IH]; intros g; [split; [constructor | intros; constructor]|].
  cbn [plant]. unfold draw_points.
  destruct (Nat.leb_spec (length (samples ++ [query])) SUBSAMPLE_SIZE) as [_|Hgt];
    [|lia].
  rewrite Hroom.
  destruct (grow_isolates room g) as [Hq Hr].
  destruct (grow (S room) 0 g (samples ++ [query])) as [t g2].
  cbn [fst] in Hq, Hr.
  destruct (IH g2) as [IHq IHr].
  split.
  - constructor; [|exact IHq].
    unfold path_length. rewrite Hq. rewrite c_one. cbn [INR]. lra.
  - intros r Hle. constructor; [apply Hr; exact Hle | apply IHr; exact Hle].
Qed.

Lemma score_isolates (cfg : config) :
  (1 <= ensembleSize cfg)%nat ->
  let n := psi (samples ++ [query]) in
  let forest := build cfg (samples ++ [query]) in
  score forest n query <= 1 /\
  forall r : Q, (r <= ceiling)%Q -> score forest n r < score forest n query.
Proof.
  intros HT n forest.
  assert (Hn : (2 <= n)%nat).
  { unfold n, psi. rewrite length_app in *. cbn [length] in *.
    unfold SUBSAMPLE_SIZE in *. lia. }
  pose proof (c_positive n Hn) as Hc.
  destruct (plant_isolates (ensembleSize cfg) (seeded (randomSeed cfg)))
    as [Hq Hr].
  fold (build cfg (samples ++ [query])) in Hq, Hr. fold forest in Hq, Hr.
  assert (Hlen : length forest = ensembleSize cfg) by apply plant_length.
  assert (HT0 : 0 < INR (length forest))
    by (rewrite Hlen; apply lt_0_INR; lia).
  assert (Hmq : mean_path_length forest query = 1).
  { unfold mean_path_length.
    rewrite (total_all_one (map (fun t => path_length t query) forest)).
    - rewrite length_map. field. lra.
    - apply Forall_map. exact Hq. }
  split.
  - unfold score. rewrite Hmq.
    apply Rle_trans with (Rpower 2 0); [|rewrite Rpower_O; lra].
    apply Rle_Rpower; [lra|].
    assert (0 < 1 / c n) by (apply Rdiv_lt_0_compat; lra).
    unfold Rdiv in *. lra.
  - intros r Hle. unfold score. rewrite Hmq.
    apply Rpower_lt; [lra|].
    assert (Hmr : 1 < mean_path_length forest r).
    { unfold mean_path_length.
      pose proof (total_all_above_one (map (fun t => path_length t r) forest)) as Htot.
      rewrite length_map in Htot.
      assert (Hne : map (fun t => path_length t r) forest <> []).
      { destruct forest; [cbn in HT0; lra | discriminate]. }
      specialize (Htot Hne (proj2 (Forall_map _ _ _) (Hr r Hle))).
      apply (Rmult_lt_reg_r (INR (length forest))); [exact HT0|].
      unfold Rdiv. rewrite Rmult_assoc, Rinv_l by lra. lra. }
    unfold Rdiv. apply Rmult_lt_compat_r; [apply Rinv_0_lt_compat; exact Hc | lra].
Qed.

End FarOut.

End DetectorFacts.

(** ** Properties of the detector *)

Module DetectorClaims.

Import Detector DetectorFacts.
Local Open Scope R_scope.

(** C6.  A history of at least two identical values (small enough to be
    used whole) and a query of that same value: every tree is a single leaf,
    the detector gives a verdict, the score is one half, and the query is
    not marked as an anomaly.  This holds for every generator, every seed,
    every non-empty ensemble and every contamination fraction below one. *)
Theorem constant_history_is_normal :
  forall (G : Generator) (cfg : config) (x : Q) (n : nat),
    (2 <= n)%nat ->
    (n <= SUBSAMPLE_SIZE)%nat ->
    (1 <= ensembleSize cfg)%nat ->
    (contamination cfg < 1)%Q ->
    classify cfg (repeat x n) x =
    Some {| anomaly_score := / 2; is_anomaly := false |}.
Proof.
  intros G cfg x n Hn Hsmall HT Hf. unfold classify.
  assert (Hpsi : psi (repeat x n) = n)
    by (unfold psi; rewrite repeat_length; apply Nat.min_r; exact Hsmall).
  rewrite Hpsi.
  destruct (Nat.leb_spec n 1) as [Hle|_]; [lia|].
  destruct (Nat.eqb_spec (ensembleSize cfg) 0) as [H0|_]; [lia|].
  cbn [orb]. unfold decide, build. rewrite Hpsi.
  rewrite (plant_constant x n Hsmall).
  rewrite (score_of_single_leaves n (ensembleSize cfg) x Hn HT).
  do 2 f_equal.
  rewrite map_app, map_repeat. cbn [map].
  rewrite (score_of_single_leaves n (ensembleSize cfg) x Hn HT).
  replace (length (repeat x n)) with (length (repeat (/ 2) n))
    by (rewrite !repeat_length; reflexivity).
  rewrite query_in_top_fraction, at_least_repeat_same, repeat_length.
  apply Nat.ltb_ge.
  pose proof (top_count_below (contamination cfg) (S n) Hf ltac:(lia)). lia.
Qed.

(** C7.  Same history, same query, same seed: the forest and the score do
    not depend on the contamination fraction, and a query marked as an
    anomaly at one fraction is marked as an anomaly at every greater
    fraction. *)
Theorem raising_contamination_keeps_anomalies :
  forall (G : Generator) (cfg : config) (fraction : Q)
         (history : list Q) (query : Q) (v : Verdict),
    classify cfg history query = Some v ->
    (contamination cfg <= fraction)%Q ->
    is_anomaly v = true ->
    exists v',
      classify (with_contamination fraction cfg) history query = Some v' /\
      anomaly_score v' = anomaly_score v /\
      is_anomaly v' = true.
Proof.
  intros G cfg fraction history query v Hv Hf Ha.
  unfold classify in *. cbn [with_contamination ensembleSize].
  destruct ((psi history <=? 1)%nat || (ensembleSize cfg =? 0)%nat)%bool;
    [discriminate|].
  injection Hv as Hv. subst v.
  eexists. split; [reflexivity|]. split; [reflexivity|].
  unfold decide in *. cbn [is_anomaly contamination with_contamination] in *.
  change (build (with_contamination fraction cfg) history)
    with (build cfg history).
  rewrite map_app in *. cbn [map] in *.
  rewrite <- (length_map (score (build cfg history) (psi history)) history) in *.
  rewrite query_in_top_fraction in *.
  apply Nat.ltb_lt. apply Nat.ltb_lt in Ha.
  pose proof (top_count_monotone (contamination cfg) fraction
                (S (length (map (score (build cfg history) (psi history)) history))) Hf).
  lia.
Qed.

(** C3.  For a history of at least two points and a non-empty ensemble the
    detector gives a verdict.  Its score is the score of the query against
    the forest built from the history; the history entries and the query
    are scored against that same forest and ranked by descending score, and
    the query is an anomaly exactly when it is among the first
    [floor (contamination * N)] of the [N] ranked entries, that is, when
    fewer history entries than that score at least as high as the query. *)
Theorem top_fraction_decision_rule :
  forall (G : Generator) (cfg : config) (history : list Q) (query : Q),
    (2 <= length history)%nat ->
    (1 <= ensembleSize cfg)%nat ->
    exists v,
      classify cfg history query = Some v /\
      anomaly_score v = score (build cfg history) (psi history) query /\
      is_anomaly v =
        existsb (fun e => (fst e =? length history)%nat)
          (firstn (top_count (contamination cfg) (S (length history)))
             (ranked (map (score (build cfg history) (psi history))
                          (history ++ [query])))) /\
      (is_anomaly v = true <->
       (at_least (score (build cfg history) (psi history) query)
                 (map (score (build cfg history) (psi history)) history)
        < top_count (contamination cfg) (S (length history)))%nat).
Proof.
  intros G cfg history query Hn HT. unfold classify.
  assert (Hpsi : (2 <= psi history)%nat)
    by (unfold psi, SUBSAMPLE_SIZE; lia).
  destruct (Nat.leb_spec (psi history) 1) as [Hle|_]; [lia|].
  destruct (Nat.eqb_spec (ensembleSize cfg) 0) as [H0|_]; [lia|].
  cbn [orb]. eexists. split; [reflexivity|].
  unfold decide. cbn [anomaly_score is_anomaly].
  split; [reflexivity|]. split.
  - unfold in_top_fraction. rewrite length_map, length_app. cbn [length].
    rewrite Nat.add_1_r. reflexivity.
  - rewrite map_app. cbn [map].
    rewrite <- (length_map (score (build cfg history) (psi history)) history) at 1.
    rewrite query_in_top_fraction, length_map.
    apply Nat.ltb_lt.
Qed.

(** C4.  A detector that serves calls one after the other draws its
    splits from a generator whose state changes with every value drawn.
    Served with the fixed seed of its configuration, a call with a given
    history and query returns the same verdict, the same anomaly score and
    the same flag, whatever state the generator was in when the session
    began, whatever calls were served before it, and in whichever session
    it is made: the verdict is [classify] of the configuration, the history
    and the query. *)
Theorem seeded_calls_return_the_same_verdict :
  forall (G : Generator) (cfg : config)
         (calls1 calls2 : list (list Q * Q)) (current1 current2 : rng)
         (i j : nat) (history : list Q) (query : Q),
    nth_error calls1 i = Some (history, query) ->
    nth_error calls2 j = Some (history, query) ->
    nth_error (serve (Some (randomSeed cfg)) cfg calls1 current1) i =
      Some (classify cfg history query) /\
    nth_error (serve (Some (randomSeed cfg)) cfg calls2 current2) j =
      Some (classify cfg history query).
Proof.
  intros G cfg calls1 calls2 current1 current2 i j history query H1 H2.
  rewrite !serve_seeded.
  split.
  - rewrite (map_nth_error _ _ _ H1). reflexivity.
  - rewrite (map_nth_error _ _ _ H2). reflexivity.
Qed.


End DetectorClaims.

(** ** Runs of the script on the detector of the specification

    Concrete runs: the library interface is filled by the detector of the
    specification over the generator without randomness. *)

Module Scenarios.

Import Py Monitor MonitorFacts MonitorClaims.
Import Detector DetectorFacts DetectorClaims Runs.

Lemma spike_forest :
  @build Midpoint default_config spike_history = repeat spike_tree 100.
Proof. vm_compute. reflexivity. Qed.

Lemma spike_scores :
  score (repeat spike_tree 100) 20 5000%Q = Rpower 2 (- (1 + c 1) / c 20) /\
  score (repeat spike_tree 100) 20 15%Q = Rpower 2 (- (1 + c 19) / c 20).
Proof.
  unfold score. rewrite !mean_path_length_repeat by lia.
  unfold path_length.
  change (leaf_of spike_tree 5000%Q) with (1%nat, 1%nat).
  change (leaf_of spike_tree 15%Q) with (1%nat, 19%nat).
  cbn [INR]. split; reflexivity.
Qed.

Lemma spike_outscores_history :
  (score (repeat spike_tree 100) 20 15%Q < score (repeat spike_tree 100) 20 5000%Q)%R.
Proof.
  destruct spike_scores as [-> ->]. rewrite c_one.
  pose proof (c_positive 19 ltac:(lia)) as H19.
  pose proof (c_positive 20 ltac:(lia)) as H20.
  apply Rpower_lt; [lra|].
  unfold Rdiv. apply Rmult_lt_compat_r; [apply Rinv_0_lt_compat; exact H20 | lra].
Qed.

Lemma spike_is_anomalous : is_anomaly spike_verdict = true.
Proof.
  unfold spike_verdict, decide. cbn [is_anomaly]. rewrite spike_forest.
  change (psi spike_history) with 20%nat.
  rewrite map_app. cbn [map].
  rewrite <- (length_map (score (repeat spike_tree 100) 20) spike_history).
  rewrite query_in_top_fraction.
  unfold spike_history at 1. rewrite map_app, map_repeat. cbn [map].
  rewrite at_least_app, (at_least_repeat_below _ _ 19 spike_outscores_history).
  change [score (repeat spike_tree 100) 20 5000%Q]
    with (repeat (score (repeat spike_tree 100) 20 5000%Q) 1).
  rewrite at_least_repeat_same, length_map.
  reflexivity.
Qed.

(** *** The loop on concrete runs *)

(** Two time-outs followed by fifty quiet answers: the window holds the
    fifty quiet latencies, the time-outs are gone. *)
Lemma window_after_fifty_two_iterations :
  exists g out,
    @iterate library (timed_out :: timed_out :: repeat quiet 50) start = inr (g, out) /\
    len (latency_history g) = HISTORY_SIZE /\
    latency_history g =
      map row (skipn 2 (samples (timed_out :: timed_out :: repeat quiet 50))).
Proof.
  exact (proj2 (@window_bound_and_fifo library)
               (timed_out :: timed_out :: repeat quiet 50) 2%nat eq_refl).
Defined.

(** One more iteration on a window of three rows and on a full window. *)
Lemma occupancy_on_a_short_and_a_full_window :
  (exists g out g' o,
      @iterate library (repeat quiet 3) start = inr (g, out) /\
      loop_body timed_out g = inr (g', o) /\
      len (latency_history g') = 4%nat) /\
  (exists g out more_g more_out,
      @iterate library (repeat quiet 50) start = inr (g, out) /\
      iterate [timed_out; quiet] g = inr (more_g, more_out) /\
      len (latency_history more_g) = HISTORY_SIZE).
Proof.
  split.
  - destruct (@occupancy_monotone_and_saturating library (repeat quiet 3) timed_out)
      as (g & out & g' & o & Hrun & Hstep & _ & Hgrow & _).
    exists g, out, g', o. split; [exact Hrun|]. split; [exact Hstep|].
    assert (Hlen : len (latency_history g) = 3%nat).
    { rewrite (iterate_final _ _ _ _ Hrun). unfold len.
      rewrite final_history, window_length by (cbn; lia). reflexivity. }
    rewrite Hgrow; rewrite Hlen; [reflexivity | unfold HISTORY_SIZE; lia].
  - destruct (@occupancy_monotone_and_saturating library (repeat quiet 50) timed_out)
      as (g & out & _ & _ & Hrun & _ & _ & _ & Hfull).
    assert (Hlen : len (latency_history g) = HISTORY_SIZE).
    { rewrite (iterate_final _ _ _ _ Hrun). unfold len.
      rewrite final_history, window_length by (cbn; lia). reflexivity. }
    destruct (Hfull Hlen [timed_out; quiet]) as (g'' & out'' & Hmore & Hsame).
    exists g, out, g'', out''. repeat split; assumption.
Defined.


(** A run that began with a time-out, now evicted, and a run that did not. *)
Lemma evicted_timeout_leaves_no_trace :
  exists g1 out1 g2 out2 g1' l1 g2' l2,
    @iterate library (timed_out :: repeat quiet 49) start = inr (g1, out1) /\
    @iterate library (repeat quiet_later 49) start = inr (g2, out2) /\
    loop_body quiet g1 = inr (g1', Some l1) /\
    loop_body quiet_later g2 = inr (g2', Some l2) /\
    latency_history g1' = latency_history g2' /\
    clf g1' = clf g2' /\
    prediction g1' = prediction g2' /\
    flagged l1 = flagged l2 /\
    latency_of l1 = latency_of l2.
Proof.
  exact (@evicted_samples_have_no_influence library
           (timed_out :: repeat quiet 49) (repeat quiet_later 49) quiet quiet_later
           (proj1 (Nat.leb_le 50 51) eq_refl)
           (proj1 (Nat.leb_le 50 50) eq_refl)
           eq_refl).
Defined.

(** The first iteration: one row, nothing fitted, nothing printed. *)
Lemma first_iteration_is_skipped :
  exists g',
    @loop_body library quiet start = inr (g', None) /\
    latency_history g' = quiet_rows 1 /\
    clf g' = clf (@start library) /\
    prediction g' = prediction (@start library).
Proof.
  exact (proj1 (proj2 (@history_gate_skips_silently library))
               quiet start (quiet_rows 1) eq_refl
               (proj1 (Nat.ltb_lt 1 20) eq_refl)).
Defined.

(** C2 as stated fails: after nineteen quiet answers the window holds
    nineteen rows, the run has raised nothing and printed nothing. *)
Lemma nineteen_samples_signal_nothing :
  (exists g,
      @iterate library (repeat quiet 19) start = inr (g, []) /\
      len (latency_history g) = 19%nat) /\
  ~ (exists e, @iterate library (repeat quiet 19) start = inl e).
Proof.
  split.
  - eexists. split; [rewrite iterate_total; reflexivity|]. reflexivity.
  - intros [e He]. rewrite iterate_total in He. discriminate He.
Qed.

(** *** The detector on concrete inputs *)

Lemma twenty_equal_samples_are_normal :
  @classify Midpoint default_config (repeat 15%Q 20) 15%Q =
  Some {| anomaly_score := (/ 2)%R; is_anomaly := false |}.
Proof.
  exact (constant_history_is_normal Midpoint default_config 15%Q 20
           (proj1 (Nat.leb_le 2 20) eq_refl)
           (proj1 (Nat.leb_le 20 SUBSAMPLE_SIZE) eq_refl)
           (proj1 (Nat.leb_le 1 100) eq_refl)
           eq_refl).
Defined.

Lemma spike_stays_anomalous_at_one_half :
  exists v',
    @classify Midpoint (with_contamination 0.5%Q default_config)
              spike_history 5000%Q = Some v' /\
    anomaly_score v' = anomaly_score spike_verdict /\
    is_anomaly v' = true.
Proof.
  exact (raising_contamination_keeps_anomalies Midpoint default_config 0.5%Q
           spike_history 5000%Q spike_verdict
           eq_refl
           (proj1 (Qle_bool_iff (contamination default_config) 0.5%Q) eq_refl)
           spike_is_anomalous).
Defined.

Lemma spike_is_ranked_by_the_rule :
  exists v,
    @classify Midpoint default_config spike_history 5000%Q = Some v /\
    (is_anomaly v = true <->
     (at_least (score (@build Midpoint default_config spike_history)
                      (psi spike_history) 5000%Q)
               (map (score (@build Midpoint default_config spike_history)
                           (psi spike_history)) spike_history)
      < top_count (contamination default_config) (S (length spike_history)))%nat).
Proof.
  destruct (top_fraction_decision_rule Midpoint default_config spike_history 5000%Q
              (proj1 (Nat.leb_le 2 (length spike_history)) eq_refl)
              (proj1 (Nat.leb_le 1 100) eq_refl))
    as (v & Hv & _ & _ & Hrule).
  exists v. split; assumption.
Defined.

(** *** A far-out latency at the end of an evenly spread window *)

Lemma ramp_under_twenty : forall p, In p ramp -> (p <= 20)%Q.
Proof.
  intros p Hp.
  assert (Hall : forallb (fun p => Qle_bool p 20) ramp = true) by reflexivity.
  apply Qle_bool_iff. exact (proj1 (forallb_forall _ _) Hall p Hp).
Qed.

Lemma ramp_gap :
  forall g : @rng Midpoint,
    (20 < fst (@uniform Midpoint g (minimum (ramp ++ [5000%Q]))
                        (maximum (ramp ++ [5000%Q]))))%Q.
Proof. intros g. vm_compute. reflexivity. Qed.


(** *** The same call at two points of a session *)

Lemma same_call_twice_in_a_session :
  nth_error (@serve Stepping (Some (randomSeed single_tree)) single_tree
                    session 0%nat) 0 =
    Some (@classify Stepping single_tree three_points 0%Q) /\
  nth_error (@serve Stepping (Some (randomSeed single_tree)) single_tree
                    session 7%nat) 2 =
    Some (@classify Stepping single_tree three_points 0%Q).
Proof.
  exact (seeded_calls_return_the_same_verdict Stepping single_tree
           session session 0%nat 7%nat 0%nat 2%nat three_points 0%Q
           eq_refl eq_refl).
Defined.

Lemma stepping_forests :
  @plant_from Stepping 1 0%nat three_points = ([low_tree], 2%nat) /\
  @plant_from Stepping 1 2%nat three_points = ([high_tree], 4%nat).
Proof. split; vm_compute; reflexivity. Qed.

(** Served without a seed, the same call made twice in a row by the
    detector with the stateful generator gets two different scores: the
    second forest is grown from the state the first one left. *)
Lemma without_a_seed_the_scores_vary :
  exists v1 v2,
    @serve Stepping None single_tree twice 0%nat = [Some v1; Some v2] /\
    (anomaly_score v2 < anomaly_score v1)%R.
Proof.
  destruct stepping_forests as [Hfirst Hsecond].
  exists (decide single_tree [low_tree] three_points 0%Q),
         (decide single_tree [high_tree] three_points 0%Q).
  split.
  - unfold twice. cbn [serve]. unfold classify_call.
    change (ensembleSize single_tree) with 1%nat.
    rewrite Hfirst, Hsecond. reflexivity.
  - unfold decide. cbn [anomaly_score].
    change (psi three_points) with 3%nat.
    change [low_tree] with (repeat low_tree 1).
    change [high_tree] with (repeat high_tree 1).
    unfold score. rewrite !mean_path_length_repeat by lia.
    unfold path_length.
    change (leaf_of low_tree 0%Q) with (1%nat, 1%nat).
    change (leaf_of high_tree 0%Q) with (2%nat, 1%nat).
    cbn beta iota. rewrite c_one.
    pose proof (c_positive 3 ltac:(lia)) as H3.
    apply Rpower_lt; [lra|].
    unfold Rdiv. apply Rmult_lt_compat_r; [apply Rinv_0_lt_compat; exact H3|].
    cbn [INR]. lra.
Qed.

End Scenarios.

(** ** More properties of the loop

    What a run prints and what it leaves in the globals, as functions of
    the environments of its iterations. *)

Module MonitorMore.

Import Py Monitor MonitorFacts.
Local Open Scope py_scope.

Section More.

Context `{API : IsolationForestAPI}.

Lemma report_stamp (stamp : string) (x : Q) (p : Z) :
  stamp_of (report stamp x p) = stamp.
Proof. unfold report. destruct (p =? -1)%Z; reflexivity. Qed.

Lemma report_latency (stamp : string) (x : Q) (p : Z) :
  latency_of (report stamp x p) = x.
Proof. unfold report. destruct (p =? -1)%Z; reflexivity. Qed.

(** From a window of [m] rows the first [19 - m] iterations print nothing
    and every later one prints its own time stamp and latency. *)
Lemma stdout_from (envs : list tick) :
  forall g : globals,
    (length (latency_history g) <= HISTORY_SIZE)%nat ->
    map (fun l => (stamp_of l, latency_of l)) (stdout envs g) =
    skipn (19 - length (latency_history g))
          (map (fun env => (now env, get_latency (probe env))) envs).
Proof.
  induction envs as [|env rest IH]; intros g Hg.
  - cbn [stdout map]. rewrite skipn_nil. reflexivity.
  - cbn [stdout map].
    pose proof (next_history env g) as Hnext.
    pose proof (slide_length (get_latency (probe env)) (latency_history g)) as Hlen.
    pose proof (slide_bound (get_latency (probe env)) (latency_history g) Hg) as Hb.
    specialize (IH (next env g)). rewrite Hnext in IH. specialize (IH Hb).
    unfold printed.
    destruct (Nat.leb_spec 20
                (length (slide (get_latency (probe env)) (latency_history g))))
      as [H20|H20];
      destruct (Nat.ltb_spec (length (latency_history g)) HISTORY_SIZE)
        as [Hlt|Hge]; unfold HISTORY_SIZE in *.
    + cbn [map]. rewrite report_stamp, report_latency, IH.
      replace (19 - length (latency_history g))%nat with 0%nat by lia.
      replace (19 - length (slide (get_latency (probe env)) (latency_history g)))%nat
        with 0%nat by lia.
      reflexivity.
    + cbn [map]. rewrite report_stamp, report_latency, IH.
      replace (19 - length (latency_history g))%nat with 0%nat by lia.
      replace (19 - length (slide (get_latency (probe env)) (latency_history g)))%nat
        with 0%nat by lia.
      reflexivity.
    + rewrite IH.
      replace (19 - length (latency_history g))%nat
        with (S (19 - length (slide (get_latency (probe env)) (latency_history g))))
        by lia.
      reflexivity.
    + lia.
Qed.

(** While fewer than 20 rows are reached nothing is fitted or printed. *)
Lemma warm_up_from (envs : list tick) :
  forall g : globals,
    (length (latency_history g) + length envs < 20)%nat ->
    clf (final envs g) = clf g /\
    prediction (final envs g) = prediction g /\
    timestamp (final envs g) = timestamp g /\
    stdout envs g = [].
Proof.
  induction envs as [|env rest IH]; intros g Hshort.
  - cbn [final stdout]. repeat split.
  - cbn [length] in Hshort. cbn [final stdout].
    assert (Hlen : (length (slide (get_latency (probe env)) (latency_history g))
                    < 20)%nat).
    { rewrite slide_length.
      destruct (Nat.ltb_spec (length (latency_history g)) HISTORY_SIZE); lia. }
    destruct (skipped_below_twenty env g _ eq_refl Hlen) as [Hn Hp].
    rewrite Hp.
    destruct (IH (next env g)) as (Hc & Hpr & Ht & Hout).
    { rewrite next_history. rewrite slide_length in *.
      destruct (Nat.ltb_spec (length (latency_history g)) HISTORY_SIZE); lia. }
    rewrite Hc, Hpr, Ht, Hout, Hn. repeat split.
Qed.

Lemma final_recent (envs : list tick) :
  latency_history (final envs start) = recent envs.
Proof.
  rewrite final_history. cbn [start latency_history].
  destruct (window_last_rows (samples envs) []) as [Heq _]; [cbn; lia|].
  rewrite Heq. cbn [app]. unfold recent, samples.
  rewrite !length_map. apply skipn_map.
Qed.

Lemma recent_length (envs : list tick) :
  length (recent envs) = Nat.min (length envs) HISTORY_SIZE.
Proof.
  unfold recent, samples. rewrite length_map, length_skipn, length_map. lia.
Qed.

(** X1.  In a run from the start of the script the first 19 iterations
    print nothing, and from the 20th on every iteration prints exactly one
    line, which carries the time stamp and the latency of that iteration:
    the printed lines are, in order, those of iterations 20, 21, ... *)
Theorem output_follows_the_inputs :
  forall envs : list tick,
  exists g out,
    iterate envs start = inr (g, out) /\
    length out = (length envs - 19)%nat /\
    map latency_of out = skipn 19 (samples envs) /\
    map stamp_of out = skipn 19 (map now envs).
Proof.
  intros envs. exists (final envs start), (stdout envs start).
  split; [apply iterate_total|].
  pose proof (stdout_from envs start) as Hout.
  cbn [start latency_history length] in Hout.
  specialize (Hout ltac:(unfold HISTORY_SIZE; lia)).
  rewrite Nat.sub_0_r in Hout.
  split; [|split].
  - rewrite <- (length_map (fun l => (stamp_of l, latency_of l))), Hout.
    rewrite length_skipn, length_map. reflexivity.
  - apply (f_equal (map snd)) in Hout.
    rewrite map_map, <- skipn_map, map_map in Hout. exact Hout.
  - apply (f_equal (map fst)) in Hout.
    rewrite map_map, <- skipn_map, map_map in Hout. exact Hout.
Qed.

(** X2.  Until the window is full nothing is dropped: after at most
    [HISTORY_SIZE] iterations the window holds the row of every latency
    measured so far, oldest first. *)
Theorem nothing_is_dropped_before_the_window_is_full :
  forall envs : list tick,
    (length envs <= HISTORY_SIZE)%nat ->
    exists g out,
      iterate envs start = inr (g, out) /\
      latency_history g = map row (samples envs).
Proof.
  intros envs Hn. exists (final envs start), (stdout envs start).
  split; [apply iterate_total|].
  rewrite final_recent. unfold recent.
  replace (length envs - HISTORY_SIZE)%nat with 0%nat by lia. reflexivity.
Qed.

(** X3.  From the 20th iteration on, the estimator is fitted on the rows of
    the last [HISTORY_SIZE] latencies (of all of them while the run is
    shorter), a training set of 20 to [HISTORY_SIZE] rows whose last row is
    the latency being judged; the line printed carries the label the fitted
    estimator gives that latency. *)
Theorem verdict_is_the_label_on_the_recent_window :
  forall (prior : list tick) (env : tick),
    (20 <= length (prior ++ [env]))%nat ->
    exists g out g',
      iterate prior start = inr (g, out) /\
      loop_body env g =
        inr (g', Some (report (now env) (get_latency (probe env))
                         (label (fit 0.1 42 (recent (prior ++ [env])))
                                [get_latency (probe env)]))) /\
      latency_history g' = recent (prior ++ [env]) /\
      clf g' = Some (fit 0.1 42 (recent (prior ++ [env]))) /\
      (20 <= len (recent (prior ++ [env])))%nat /\
      (len (recent (prior ++ [env])) <= HISTORY_SIZE)%nat /\
      last (recent (prior ++ [env])) [] = [get_latency (probe env)].
Proof.
  intros prior env Hn.
  assert (Hh : slide (get_latency (probe env)) (latency_history (final prior start)) =
               recent (prior ++ [env])).
  { rewrite <- next_history.
    change (next env (final prior start)) with (final [env] (final prior start)).
    rewrite <- final_app. apply final_recent. }
  assert (Hlen : (20 <= length (recent (prior ++ [env])))%nat)
    by (rewrite recent_length; unfold HISTORY_SIZE; lia).
  destruct (verdict_of_window env (final prior start) _ _ Hh eq_refl Hlen)
    as [Hnext Hprinted].
  exists (final prior start), (stdout prior start), (next env (final prior start)).
  split; [apply iterate_total|].
  rewrite loop_body_total, Hprinted, Hnext. cbn [latency_history clf].
  unfold len. repeat split.
  - exact Hlen.
  - rewrite recent_length. lia.
  - rewrite <- Hh. apply slide_last.
Qed.

(** X4.  Every row of the window has exactly one feature, at every point of
    a run from the start of the script: the training set always has the
    shape of the one-row query, one column. *)
Theorem window_rows_have_one_feature :
  forall envs : list tick,
  exists g out,
    iterate envs start = inr (g, out) /\
    Forall (fun r => length r = 1%nat) (latency_history g).
Proof.
  intros envs. exists (final envs start), (stdout envs start).
  split; [apply iterate_total|].
  rewrite final_recent. unfold recent.
  apply Forall_forall. intros r Hr.
  apply in_map_iff in Hr. destruct Hr as (x & <- & _). reflexivity.
Qed.

(** X5.  A run of fewer than 20 iterations from the start of the script
    fits no estimator and prints nothing: [clf], [prediction] and
    [timestamp] are still unbound at its end, while the window holds all
    the latencies measured. *)
Theorem nothing_is_fitted_during_warm_up :
  forall envs : list tick,
    (length envs < 20)%nat ->
    exists g,
      iterate envs start = inr (g, []) /\
      clf g = None /\
      prediction g = None /\
      timestamp g = None /\
      latency_history g = map row (samples envs).
Proof.
  intros envs Hn.
  destruct (warm_up_from envs start) as (Hc & Hp & Ht & Hout);
    [cbn [start latency_history length]; lia|].
  exists (final envs start). rewrite iterate_total, Hout, Hc, Hp, Ht.
  repeat split.
  rewrite final_recent. unfold recent.
  replace (length envs - HISTORY_SIZE)%nat with 0%nat
    by (unfold HISTORY_SIZE; lia).
  reflexivity.
Qed.

(** X7.  A latency stays in the window for [HISTORY_SIZE] iterations, its
    own included: while fewer than [HISTORY_SIZE] later latencies have been
    measured, the window ends with its row followed by the rows of the later
    ones; once [HISTORY_SIZE] later latencies have been measured the window
    is made of later latencies only. *)
Theorem latency_stays_for_fifty_iterations :
  forall (before : list tick) (env : tick) (after : list tick),
  exists g out,
    iterate (before ++ env :: after) start = inr (g, out) /\
    ((length after < HISTORY_SIZE)%nat ->
     exists older,
       latency_history g =
       older ++ row (get_latency (probe env)) :: map row (samples after)) /\
    ((HISTORY_SIZE <= length after)%nat ->
     latency_history g = recent after).
Proof.
  intros before env after.
  exists (final (before ++ env :: after) start), (stdout (before ++ env :: after) start).
  split; [apply iterate_total|].
  rewrite final_recent. unfold recent, samples.
  rewrite !map_app, !length_app. cbn [map length].
  split.
  - intros Hafter.
    exists (map row (skipn (length before + S (length after) - HISTORY_SIZE)
                           (map (fun e => get_latency (probe e)) before))).
    rewrite skipn_app, length_map.
    replace (length before + S (length after) - HISTORY_SIZE - length before)%nat
      with 0%nat by lia.
    cbn [skipn]. rewrite map_app. reflexivity.
  - intros Hafter.
    rewrite skipn_app, length_map.
    rewrite (skipn_all2 (map _ before)) by (rewrite length_map; lia).
    replace (length before + S (length after) - HISTORY_SIZE - length before)%nat
      with (S (length after - HISTORY_SIZE)) by lia.
    reflexivity.
Qed.

End More.

(** X6.  The latency of an answer is not negative when the clock did not go
    back during the request, and it is below the penalty of a failed probe
    exactly when the request took less than two seconds, the time-out of
    the request. *)
Theorem penalty_bounds_answers_within_the_timeout :
  forall start finish : Q,
    (start <= finish -> 0 <= get_latency (Responded start finish)) /\
    (finish - start < 2 <->
     get_latency (Responded start finish) < get_latency Failed).
Proof.
  intros start finish. cbn [get_latency].
  split; [intros Hle; Lqa.lra|]. split; intros Hlt; Lqa.lra.
Qed.

End MonitorMore.

(** ** More concrete runs *)

Module MoreScenarios.

Import Py Monitor MonitorFacts MonitorMore Detector Runs.

(** Three quiet answers: three rows. *)
Lemma three_answers_are_all_kept :
  exists g out,
    @iterate library (repeat quiet 3) start = inr (g, out) /\
    latency_history g = map row (samples (repeat quiet 3)).
Proof.
  exact (@nothing_is_dropped_before_the_window_is_full library (repeat quiet 3)
           (proj1 (Nat.leb_le 3 HISTORY_SIZE) eq_refl)).
Defined.

(** Nineteen quiet answers, then a time-out in the 20th iteration: the
    first verdict is given on a training set of twenty rows that ends with
    the penalty. *)
Lemma first_verdict_on_twenty_rows :
  exists g out g',
    @iterate library (repeat quiet 19) start = inr (g, out) /\
    loop_body timed_out g =
      inr (g', Some (report (now timed_out) (get_latency (probe timed_out))
                       (@label library
                          (@fit library 0.1 42 (recent (repeat quiet 19 ++ [timed_out])))
                          [get_latency (probe timed_out)]))) /\
    latency_history g' = recent (repeat quiet 19 ++ [timed_out]) /\
    clf g' = Some (@fit library 0.1 42 (recent (repeat quiet 19 ++ [timed_out]))) /\
    (20 <= len (recent (repeat quiet 19 ++ [timed_out])))%nat /\
    (len (recent (repeat quiet 19 ++ [timed_out])) <= HISTORY_SIZE)%nat /\
    last (recent (repeat quiet 19 ++ [timed_out])) [] =
      [get_latency (probe timed_out)].
Proof.
  exact (@verdict_is_the_label_on_the_recent_window library (repeat quiet 19) timed_out
           (proj1 (Nat.leb_le 20 (length (repeat quiet 19 ++ [timed_out]))) eq_refl)).
Defined.

(** Nineteen iterations with a time-out among them. *)
Lemma nineteen_iterations_fit_nothing :
  exists g,
    @iterate library (timed_out :: repeat quiet 18) start = inr (g, []) /\
    clf g = None /\
    prediction g = None /\
    timestamp g = None /\
    latency_history g = map row (samples (timed_out :: repeat quiet 18)).
Proof.
  exact (@nothing_is_fitted_during_warm_up library (timed_out :: repeat quiet 18)
           (proj1 (Nat.ltb_lt (length (timed_out :: repeat quiet 18)) 20) eq_refl)).
Defined.

(** An answer after 12 ms. *)
Lemma twelve_milliseconds_are_below_the_penalty :
  (0 <= get_latency (Responded 0 (12 # 1000)))%Q /\
  (get_latency (Responded 0 (12 # 1000)) < get_latency Failed)%Q.
Proof.
  split.
  - exact (proj1 (penalty_bounds_answers_within_the_timeout 0 (12 # 1000))
                 (proj1 (Qle_bool_iff 0 (12 # 1000)) eq_refl)).
  - exact (proj1 (proj2 (penalty_bounds_answers_within_the_timeout 0 (12 # 1000)))
                 eq_refl).
Defined.

(** A time-out followed by forty-nine quiet answers is still in the
    window. *)
Lemma timeout_is_still_in_the_window :
  exists g out older,
    @iterate library ([timed_out] ++ timed_out :: repeat quiet 49) start = inr (g, out) /\
    latency_history g =
      older ++ row (get_latency (probe timed_out)) :: map row (samples (repeat quiet 49)).
Proof.
  destruct (@latency_stays_for_fifty_iterations library [timed_out] timed_out
              (repeat quiet 49)) as (g & out & Hrun & Hstays & _).
  destruct (Hstays (proj1 (Nat.ltb_lt (length (repeat quiet 49)) HISTORY_SIZE) eq_refl))
    as (older & Hwindow).
  exists g, out, older. split; assumption.
Defined.

End MoreScenarios.
